(** * MotionLab: the animation lifecycle of [SimpleFBXViewer]

    A shallow embedding of [src/App.js]: the React state of the component,
    its persistent refs, the part of the browser and of the render engine
    the component talks to (scene children, clip actions, animation-frame
    queue, timers, loads in flight), and the component's handlers written
    in a small state-and-exception monad.

    Conventions of the embedding.
    - A JavaScript number is a [JSNum.num]: an exact rational or one of
      [+Infinity], [-Infinity], [NaN].  Arithmetic on finite values is
      exact: IEEE rounding, overflow and the sign of zero are not modelled.
    - A handler is a closure over the values of the render that created it.
      The values it reads from that render are passed as a [Render]; refs
      are read from the current state.
    - Engine objects (loaded assets, mixers, clip actions) are identified
      by the number of the load request that created them. *)

From Stdlib Require Import ZArith QArith Lqa Bool.
From stdpp Require Import gmap strings list.

Local Open Scope string_scope.
Local Open Scope list_scope.

(** ** JavaScript numbers *)

Module JSNum.

Inductive num : Type :=
| Fin (q : Q)
| PInf
| NInf
| NaN.

Definition zero : num := Fin 0.

Definition sgn (q : Q) : comparison := (Qnum q ?= 0)%Z.

(** [isFinite(x)] *)
Definition isFinite (a : num) : bool :=
  match a with Fin _ => true | _ => false end.

(** unary [-x] *)
Definition neg (a : num) : num :=
  match a with
  | Fin x => Fin (- x)
  | PInf => NInf
  | NInf => PInf
  | NaN => NaN
  end.

(** [x + y] *)
Definition add (a b : num) : num :=
  match a, b with
  | NaN, _ | _, NaN => NaN
  | Fin x, Fin y => Fin (x + y)
  | PInf, NInf | NInf, PInf => NaN
  | PInf, _ | _, PInf => PInf
  | NInf, _ | _, NInf => NInf
  end.

(** [x - y] *)
Definition sub (a b : num) : num := add a (neg b).

(** [x * y] *)
Definition mul (a b : num) : num :=
  match a, b with
  | NaN, _ | _, NaN => NaN
  | Fin x, Fin y => Fin (x * y)
  | Fin x, PInf | PInf, Fin x =>
      match sgn x with Gt => PInf | Lt => NInf | Eq => NaN end
  | Fin x, NInf | NInf, Fin x =>
      match sgn x with Gt => NInf | Lt => PInf | Eq => NaN end
  | PInf, PInf | NInf, NInf => PInf
  | PInf, NInf | NInf, PInf => NInf
  end.

(** [x / y] *)
Definition div (a b : num) : num :=
  match a, b with
  | NaN, _ | _, NaN => NaN
  | Fin x, Fin y =>
      if Qeq_bool y 0
      then match sgn x with Gt => PInf | Lt => NInf | Eq => NaN end
      else Fin (x / y)
  | Fin _, _ => Fin 0
  | PInf, Fin y => match sgn y with Lt => NInf | _ => PInf end
  | NInf, Fin y => match sgn y with Lt => PInf | _ => NInf end
  | _, _ => NaN
  end.

(** [x < y] *)
Definition lt (a b : num) : bool :=
  match a, b with
  | NaN, _ | _, NaN => false
  | Fin x, Fin y => negb (Qle_bool y x)
  | Fin _, PInf => true
  | Fin _, NInf => false
  | PInf, _ => false
  | NInf, NInf => false
  | NInf, _ => true
  end.

(** [x === y] *)
Definition strict_eq (a b : num) : bool :=
  match a, b with
  | Fin x, Fin y => Qeq_bool x y
  | PInf, PInf | NInf, NInf => true
  | _, _ => false
  end.

(** [Math.max(x, y)] *)
Definition max2 (a b : num) : num :=
  match a, b with
  | NaN, _ | _, NaN => NaN
  | _, _ => if lt a b then b else a
  end.

(** [Math.max(x, y, z)] *)
Definition max3 (a b c : num) : num := max2 (max2 a b) c.

(** Two numbers denote the same value (rationals up to [Qeq]); [NaN]
    denotes none. *)
Definition same (a b : num) : Prop :=
  match a, b with
  | Fin x, Fin y => x == y
  | PInf, PInf | NInf, NInf => True
  | _, _ => False
  end.

End JSNum.

Export JSNum(num, Fin, PInf, NInf, NaN).

(** ** The render engine's vectors and boxes ([THREE.Vector3], [THREE.Box3]) *)

Record Vector3 : Type := mkVector3 { vx : num; vy : num; vz : num }.

Record Box3 : Type := mkBox3 { box_min : Vector3; box_max : Vector3 }.

Definition vzero : Vector3 := mkVector3 JSNum.zero JSNum.zero JSNum.zero.

(** [Box3.isEmpty]: some maximum lies below its minimum. *)
Definition isEmpty (b : Box3) : bool :=
  JSNum.lt (vx (box_max b)) (vx (box_min b))
  || JSNum.lt (vy (box_max b)) (vy (box_min b))
  || JSNum.lt (vz (box_max b)) (vz (box_min b)).

(** [Box3.getCenter]: the origin for an empty box, else [(min + max) * 0.5]. *)
Definition getCenter (b : Box3) : Vector3 :=
  if isEmpty b then vzero
  else
    let half a c := JSNum.mul (JSNum.add a c) (Fin (1 # 2)) in
    mkVector3 (half (vx (box_min b)) (vx (box_max b)))
              (half (vy (box_min b)) (vy (box_max b)))
              (half (vz (box_min b)) (vz (box_max b))).

(** [Box3.getSize]: zero for an empty box, else [max - min]. *)
Definition getSize (b : Box3) : Vector3 :=
  if isEmpty b then vzero
  else
    mkVector3 (JSNum.sub (vx (box_max b)) (vx (box_min b)))
              (JSNum.sub (vy (box_max b)) (vy (box_min b)))
              (JSNum.sub (vz (box_max b)) (vz (box_min b))).

(** The scale and position that the load callback writes on the asset root.
    [setScalar] writes one factor on the three axes, so a single number
    stands for [fbx.scale]. *)
Record Placement : Type := mkPlacement {
  pl_scale : num;
  pl_position : Vector3
}.

Definition targetSize : num := Fin 100.
Definition defaultScale : num := Fin (1 # 10).

(** [maxDim] of App.js line 164. *)
Definition maxDim (box : Box3) : num :=
  let size := getSize box in
  JSNum.max3 (vx size) (vy size) (vz size).

(** The test of App.js line 166: [maxDim === 0 || !isFinite(maxDim)]. *)
Definition degenerate (box : Box3) : bool :=
  JSNum.strict_eq (maxDim box) (Fin 0) || negb (JSNum.isFinite (maxDim box)).

(** App.js lines 162-180, "Auto-scale and center". *)
Definition autoScaleAndCenter (box : Box3) : Placement :=
  let center := getCenter box in
  let size := getSize box in
  let scale :=
    if degenerate box then defaultScale
    else JSNum.div targetSize (maxDim box) in
  mkPlacement scale
    (mkVector3
       (JSNum.mul (JSNum.neg (vx center)) scale)
       (JSNum.add (JSNum.mul (JSNum.neg (vy center)) scale)
                  (JSNum.mul (JSNum.div (vy size) (Fin 2)) scale))
       (JSNum.mul (JSNum.neg (vz center)) scale)).

(** Where the engine draws a point of the asset once the root carries the
    placement: the root has no rotation, so a point [p] of the asset goes to
    [p * scale + position]. *)
Definition place (p : Placement) (v : Vector3) : Vector3 :=
  mkVector3 (JSNum.add (JSNum.mul (vx v) (pl_scale p)) (vx (pl_position p)))
            (JSNum.add (JSNum.mul (vy v) (pl_scale p)) (vy (pl_position p)))
            (JSNum.add (JSNum.mul (vz v) (pl_scale p)) (vz (pl_position p))).

Definition placeBox (p : Placement) (b : Box3) : Box3 :=
  mkBox3 (place p (box_min b)) (place p (box_max b)).

(** ** Data model *)

(** An entry of the [animations] state: [{ id, name, loaded, active }]. *)
Record Descriptor : Type := mkDescriptor {
  anim_id : string;
  anim_name : string;
  anim_loaded : bool;
  anim_active : bool
}.

(** The diagnostic log.  An entry stands for the message text; the time
    stamp that [addLog] puts in front is left out. *)
Inductive LogMsg : Type :=
| LogSpeedSet (v : num)                 (* Animation speed set to ..x *)
| LogPaused                             (* Animation paused *)
| LogResumed                            (* Animation resumed *)
| LogKeyboardShortcut (wasPaused : bool) (* Keyboard shortcut: .. animation *)
| LogNotFound (animationId : string)    (* Animation .. not found *)
| LogAlreadyActive (animationId : string)
| LogSwitching (animationId : string)
| LogSceneNotInitialized (animationId : string)
| LogLoadingModel (animationId : string)
| LogIgnoringCompleted (animationId : string)
| LogLoadedOk (animationId : string)
| LogBoxEmpty
| LogDefaultScale
| LogScaled (scale : num)
| LogModelHasAnimations (n : nat)
| LogForcingStart
| LogStarted (v : num)
| LogSetupError
| LogNoAnimations
| LogSceneGone
| LogProgress (animationId : string) (percent : Z)
| LogLoadError (animationId : string)
| LogLoadException (animationId : string)
| LogMounted
| LogSceneExists
| LogSceneCreated
| LogCameraCreated
| LogRendererAttached
| LogMountRefMissing
| LogGroundCreated
| LogGridCreated
| LogCubeCreated
| LogAxesCreated
| LogLightsCreated
| LogControlsCreated
| LogUpdateError
| LogUnmounting
| LogStopError
| LogCleanupError.

(** The state values a closure reads from the render that created it. *)
Record Render : Type := mkRender {
  r_speed : num;
  r_isPaused : bool;
  r_animations : list Descriptor
}.

(** The [useState] cells of the component. *)
Record UI : Type := mkUI {
  log : list LogMsg;
  speed : num;
  isPaused : bool;
  isLoading : bool;
  loadingProgress : Z;
  selectedAnimation : string;
  animations : list Descriptor
}.

(** What is attached to the scene. *)
Inductive Object3D : Type :=
| Grid
| AmbientLight
| DirectionalLight
| Model (obj : nat).

Global Instance Object3D_eq_dec : EqDecision Object3D.
Proof. solve_decision. Defined.

(** The [useRef] cells ([.current]); [None] and [false] stand for [null].
    The scene is reached only through [sceneRef], so the cell holds the
    scene's children. *)
Record Refs : Type := mkRefs {
  mountRef : bool;
  mixerRef : option nat;
  modelRef : option nat;
  sceneRef : option (list Object3D);
  currentAnimationRef : option nat;
  rendererRef : bool;
  clockRef : bool;
  animationFrameIdRef : option nat
}.

(** A clip action of the engine: the properties the component reads or
    writes, and whether the mixer has it scheduled ([play] without a later
    [stop]). *)
Record Action : Type := mkAction {
  act_paused : bool;
  act_timeScale : num;
  act_time : num;
  act_scheduled : bool
}.

(** A loaded asset as the load callback sees it: the box that
    [Box3.setFromObject] computes for it and the length of its
    [animations] array. *)
Record Asset : Type := mkAsset {
  fbx_box : Box3;
  fbx_animations : nat
}.

(** A pending [setTimeout] callback: the one of the mount effect (with the
    [setAnimations] that follows its load) or the one of a selection. *)
Record Timer : Type := mkTimer {
  tm_initial : bool;
  tm_animationId : string;
  tm_render : Render
}.

(** A load in flight: the callbacks of one [loader.load] call.  [rq_obj]
    identifies the loader of this call and what its completion creates;
    [rq_loadId] is the constant [loadId] of the call and [rq_loadingId] the
    [loadingId] property of the call's loader. *)
Record LoadReq : Type := mkLoadReq {
  rq_obj : nat;
  rq_animationId : string;
  rq_loadId : Z;
  rq_loadingId : Z;
  rq_render : Render
}.

(** The browser and the engine around the component. *)
Record World : Type := mkWorld {
  w_nextObj : nat;                      (* next fresh object number *)
  w_actions : gmap nat Action;          (* clip action of each mixer *)
  w_placements : gmap nat Placement;    (* scale and position of each asset *)
  w_rafNext : nat;                      (* next animation-frame handle *)
  w_rafPending : list nat;              (* scheduled animation frames *)
  w_timers : list Timer;
  w_loads : list LoadReq;
  w_disposed : list Object3D;           (* geometry and materials released *)
  w_canvas : bool;                      (* canvas attached to the mount node *)
  w_resize : bool;                      (* resize listener installed *)
  w_cleanup : bool                      (* the effect returned its cleanup *)
}.

Record State : Type := mkState { ui : UI; refs : Refs; world : World }.

(** What one event reads from outside: the clock, and which engine calls
    throw during it. *)
Record Env : Type := mkEnv {
  env_now : Z;                          (* Date.now() *)
  env_delta : num;                      (* clock.getDelta() *)
  throws_stopAllAction : bool;
  throws_load : bool;                   (* new FBXLoader() or loader.load *)
  throws_newMixer : bool;               (* new THREE.AnimationMixer *)
  throws_clipAction : bool;             (* mixer.clipAction *)
  throws_update : bool;                 (* mixer.update *)
  throws_dispose : bool                 (* a dispose() call *)
}.

Definition initialAnimations : list Descriptor :=
  [ mkDescriptor "startwalk" "Walking" false false;
    mkDescriptor "seated" "Sitting" false false;
    mkDescriptor "shakehand" "Shake Hand" false false;
    mkDescriptor "drinking" "Drinking" false false;
    mkDescriptor "jumping" "Jumping" false false ].

Definition initialUI : UI :=
  mkUI [] (Fin 1) false true 0 "startwalk" initialAnimations.

(** Before the mount effect runs React has attached the mount node. *)
Definition initialRefs : Refs :=
  mkRefs true None None None None false false None.

Definition initialWorld : World :=
  mkWorld 0 ∅ ∅ 1 [] [] [] [] false false false.

Definition initialState : State := mkState initialUI initialRefs initialWorld.

Definition render_of (s : State) : Render :=
  mkRender (speed (ui s)) (isPaused (ui s)) (animations (ui s)).

(** ** The state-and-exception monad

    A computation runs on a state and either completes or throws; what it
    wrote before throwing stays written. *)

Inductive Completion (A : Type) : Type :=
| Normal (a : A)
| Thrown.

Arguments Normal {A} a.
Arguments Thrown {A}.

Definition Eff (A : Type) : Type := State -> State * Completion A.

Definition ret {A} (a : A) : Eff A := fun s => (s, Normal a).

Definition bind {A B} (m : Eff A) (k : A -> Eff B) : Eff B :=
  fun s =>
    match m s with
    | (s1, Normal a) => k a s1
    | (s1, Thrown) => (s1, Thrown)
    end.

Definition throw {A} : Eff A := fun s => (s, Thrown).

(** [try { body } catch (error) { handler }] *)
Definition tryCatch (body handler : Eff unit) : Eff unit :=
  fun s =>
    match body s with
    | (s1, Normal a) => (s1, Normal a)
    | (s1, Thrown) => handler s1
    end.

Declare Scope eff_scope.
Delimit Scope eff_scope with eff.
Bind Scope eff_scope with Eff.

Notation "x <- y ; z" := (bind y (fun x => z))
  (at level 20, y at level 100, z at level 200, only parsing) : eff_scope.
Notation "x ;; z" := (bind x (fun _ => z))
  (at level 100, z at level 200, only parsing, right associativity) : eff_scope.

Local Open Scope eff_scope.

Definition when (b : bool) (m : Eff unit) : Eff unit :=
  if b then m else ret tt.

Definition readRefs : Eff Refs := fun s => (s, Normal (refs s)).
Definition readWorld : Eff World := fun s => (s, Normal (world s)).

Definition modUI (f : UI -> UI) : Eff unit :=
  fun s => (mkState (f (ui s)) (refs s) (world s), Normal tt).
Definition modRefs (f : Refs -> Refs) : Eff unit :=
  fun s => (mkState (ui s) (f (refs s)) (world s), Normal tt).
Definition modWorld (f : World -> World) : Eff unit :=
  fun s => (mkState (ui s) (refs s) (f (world s)), Normal tt).

(** ** React state setters and [addLog] *)

Definition addLog (message : LogMsg) : Eff unit :=
  modUI (fun u =>
    mkUI (log u ++ [message]) (speed u) (isPaused u) (isLoading u)
         (loadingProgress u) (selectedAnimation u) (animations u)).

Definition setSpeed (v : num) : Eff unit :=
  modUI (fun u =>
    mkUI (log u) v (isPaused u) (isLoading u)
         (loadingProgress u) (selectedAnimation u) (animations u)).

Definition setIsPaused (b : bool) : Eff unit :=
  modUI (fun u =>
    mkUI (log u) (speed u) b (isLoading u)
         (loadingProgress u) (selectedAnimation u) (animations u)).

Definition setIsLoading (b : bool) : Eff unit :=
  modUI (fun u =>
    mkUI (log u) (speed u) (isPaused u) b
         (loadingProgress u) (selectedAnimation u) (animations u)).

Definition setLoadingProgress (n : Z) : Eff unit :=
  modUI (fun u =>
    mkUI (log u) (speed u) (isPaused u) (isLoading u)
         n (selectedAnimation u) (animations u)).

Definition setSelectedAnimation (animationId : string) : Eff unit :=
  modUI (fun u =>
    mkUI (log u) (speed u) (isPaused u) (isLoading u)
         (loadingProgress u) animationId (animations u)).

(** [setAnimations(prevAnimations => f prevAnimations)] *)
Definition setAnimations (f : list Descriptor -> list Descriptor) : Eff unit :=
  modUI (fun u =>
    mkUI (log u) (speed u) (isPaused u) (isLoading u)
         (loadingProgress u) (selectedAnimation u) (f (animations u))).

(** ** Writing the refs *)

Definition setMixerRef (v : option nat) : Eff unit :=
  modRefs (fun r => mkRefs (mountRef r) v (modelRef r) (sceneRef r)
                           (currentAnimationRef r) (rendererRef r) (clockRef r)
                           (animationFrameIdRef r)).

Definition setModelRef (v : option nat) : Eff unit :=
  modRefs (fun r => mkRefs (mountRef r) (mixerRef r) v (sceneRef r)
                           (currentAnimationRef r) (rendererRef r) (clockRef r)
                           (animationFrameIdRef r)).

Definition setSceneRef (v : option (list Object3D)) : Eff unit :=
  modRefs (fun r => mkRefs (mountRef r) (mixerRef r) (modelRef r) v
                           (currentAnimationRef r) (rendererRef r) (clockRef r)
                           (animationFrameIdRef r)).

Definition setCurrentAnimationRef (v : option nat) : Eff unit :=
  modRefs (fun r => mkRefs (mountRef r) (mixerRef r) (modelRef r) (sceneRef r)
                           v (rendererRef r) (clockRef r)
                           (animationFrameIdRef r)).

Definition setRendererRef (v : bool) : Eff unit :=
  modRefs (fun r => mkRefs (mountRef r) (mixerRef r) (modelRef r) (sceneRef r)
                           (currentAnimationRef r) v (clockRef r)
                           (animationFrameIdRef r)).

Definition setClockRef (v : bool) : Eff unit :=
  modRefs (fun r => mkRefs (mountRef r) (mixerRef r) (modelRef r) (sceneRef r)
                           (currentAnimationRef r) (rendererRef r) v
                           (animationFrameIdRef r)).

Definition setAnimationFrameIdRef (v : option nat) : Eff unit :=
  modRefs (fun r => mkRefs (mountRef r) (mixerRef r) (modelRef r) (sceneRef r)
                           (currentAnimationRef r) (rendererRef r) (clockRef r)
                           v).

(** ** Writing the world *)

Definition setNextObj (v : nat) (w : World) : World :=
  mkWorld v (w_actions w) (w_placements w) (w_rafNext w) (w_rafPending w)
          (w_timers w) (w_loads w) (w_disposed w) (w_canvas w) (w_resize w)
          (w_cleanup w).

Definition setActions (v : gmap nat Action) (w : World) : World :=
  mkWorld (w_nextObj w) v (w_placements w) (w_rafNext w) (w_rafPending w)
          (w_timers w) (w_loads w) (w_disposed w) (w_canvas w) (w_resize w)
          (w_cleanup w).

Definition setPlacements (v : gmap nat Placement) (w : World) : World :=
  mkWorld (w_nextObj w) (w_actions w) v (w_rafNext w) (w_rafPending w)
          (w_timers w) (w_loads w) (w_disposed w) (w_canvas w) (w_resize w)
          (w_cleanup w).

Definition setRaf (next : nat) (pending : list nat) (w : World) : World :=
  mkWorld (w_nextObj w) (w_actions w) (w_placements w) next pending
          (w_timers w) (w_loads w) (w_disposed w) (w_canvas w) (w_resize w)
          (w_cleanup w).

Definition setTimers (v : list Timer) (w : World) : World :=
  mkWorld (w_nextObj w) (w_actions w) (w_placements w) (w_rafNext w)
          (w_rafPending w) v (w_loads w) (w_disposed w) (w_canvas w)
          (w_resize w) (w_cleanup w).

Definition setLoads (v : list LoadReq) (w : World) : World :=
  mkWorld (w_nextObj w) (w_actions w) (w_placements w) (w_rafNext w)
          (w_rafPending w) (w_timers w) v (w_disposed w) (w_canvas w)
          (w_resize w) (w_cleanup w).

Definition setDisposed (v : list Object3D) (w : World) : World :=
  mkWorld (w_nextObj w) (w_actions w) (w_placements w) (w_rafNext w)
          (w_rafPending w) (w_timers w) (w_loads w) v (w_canvas w)
          (w_resize w) (w_cleanup w).

Definition setCanvas (v : bool) (w : World) : World :=
  mkWorld (w_nextObj w) (w_actions w) (w_placements w) (w_rafNext w)
          (w_rafPending w) (w_timers w) (w_loads w) (w_disposed w) v
          (w_resize w) (w_cleanup w).

Definition setResize (v : bool) (w : World) : World :=
  mkWorld (w_nextObj w) (w_actions w) (w_placements w) (w_rafNext w)
          (w_rafPending w) (w_timers w) (w_loads w) (w_disposed w) (w_canvas w)
          v (w_cleanup w).

Definition setCleanup (v : bool) (w : World) : World :=
  mkWorld (w_nextObj w) (w_actions w) (w_placements w) (w_rafNext w)
          (w_rafPending w) (w_timers w) (w_loads w) (w_disposed w) (w_canvas w)
          (w_resize w) v.

(** ** The browser *)

(** [requestAnimationFrame(callback)]: the only callback ever passed is
    [animate]; the handle is fresh and not zero. *)
Definition requestAnimationFrame : Eff nat :=
  w <- readWorld;
  modWorld (setRaf (S (w_rafNext w)) (w_rafPending w ++ [w_rafNext w]));;
  ret (w_rafNext w).

Definition sameHandle (a b : nat) : bool := (a =? b)%nat.

(** [cancelAnimationFrame(handle)] *)
Definition cancelAnimationFrame (handle : nat) : Eff unit :=
  modWorld (fun w =>
    setRaf (w_rafNext w)
           (List.filter (fun h => negb (sameHandle h handle)) (w_rafPending w))
           w).

(** [setTimeout(callback, ms)] *)
Definition setTimeout (t : Timer) : Eff unit :=
  modWorld (fun w => setTimers (w_timers w ++ [t]) w).

(** ** The render engine *)

(** The scene with other children. *)
Definition withChildren (f : list Object3D -> list Object3D) (r : Refs)
  : Refs :=
  match sceneRef r with
  | Some children =>
      mkRefs (mountRef r) (mixerRef r) (modelRef r) (Some (f children))
             (currentAnimationRef r) (rendererRef r) (clockRef r)
             (animationFrameIdRef r)
  | None => r
  end.

(** [scene.add(object)] through [sceneRef]: the object goes last, and is
    first taken from where it was. *)
Definition scene_add (o : Object3D) : Eff unit :=
  modRefs (withChildren
             (fun children => filter (fun c => c ≠ o) children ++ [o])).

(** [scene.remove(object)] through [sceneRef] *)
Definition scene_remove (o : Object3D) : Eff unit :=
  modRefs (withChildren (filter (fun c => c ≠ o))).

(** [action.stop()]: unscheduled and reset. *)
Definition stopped (a : Action) : Action :=
  mkAction false (act_timeScale a) (Fin 0) false.

(** [mixer.stopAllAction()]: the mixer numbered [m] owns the clip action
    numbered [m], if it made one. *)
Definition mixer_stopAllAction (env : Env) (m : nat) : Eff unit :=
  if throws_stopAllAction env then throw
  else modWorld (fun w => setActions (alter stopped m (w_actions w)) w).

(** [action.paused = b] *)
Definition action_set_paused (a : nat) (b : bool) : Eff unit :=
  modWorld (fun w =>
    setActions (alter (fun x => mkAction b (act_timeScale x) (act_time x)
                                         (act_scheduled x)) a (w_actions w)) w).

(** [action.timeScale = v]; [action.setEffectiveTimeScale(v)] writes the
    same property. *)
Definition action_set_timeScale (a : nat) (v : num) : Eff unit :=
  modWorld (fun w =>
    setActions (alter (fun x => mkAction (act_paused x) v (act_time x)
                                         (act_scheduled x)) a (w_actions w)) w).

Definition action_setEffectiveTimeScale (a : nat) (v : num) : Eff unit :=
  action_set_timeScale a v.

(** [action.reset()]: unpaused, at time zero. *)
Definition action_reset (a : nat) : Eff unit :=
  modWorld (fun w =>
    setActions (alter (fun x => mkAction false (act_timeScale x) (Fin 0)
                                         (act_scheduled x)) a (w_actions w)) w).

(** [action.play()]: scheduled in its mixer. *)
Definition action_play (a : nat) : Eff unit :=
  modWorld (fun w =>
    setActions (alter (fun x => mkAction (act_paused x) (act_timeScale x)
                                         (act_time x) true) a (w_actions w)) w).

(** [action.isRunning()] *)
Definition isRunning (x : Action) : bool :=
  negb (act_paused x) && negb (JSNum.strict_eq (act_timeScale x) (Fin 0))
  && act_scheduled x.

Definition action_isRunning (a : nat) : Eff bool :=
  w <- readWorld;
  ret (match w_actions w !! a with Some x => isRunning x | None => false end).

(** [new THREE.AnimationMixer(fbx)] *)
Definition newAnimationMixer (env : Env) : Eff unit :=
  if throws_newMixer env then throw else ret tt.

(** [mixer.clipAction(clip)] on the mixer numbered [m]: a new action,
    unpaused, at unit time scale, not scheduled. *)
Definition mixer_clipAction (env : Env) (m : nat) : Eff unit :=
  if throws_clipAction env then throw
  else modWorld (fun w =>
         setActions
           (<[m := mkAction false (Fin 1) (Fin 0) false]> (w_actions w)) w).

(** One tick of a clip: a scheduled, unpaused action moves on by
    [delta * timeScale]. *)
Definition advance (delta : num) (x : Action) : Action :=
  if act_scheduled x && negb (act_paused x)
  then mkAction (act_paused x) (act_timeScale x)
                (JSNum.add (act_time x) (JSNum.mul delta (act_timeScale x)))
                (act_scheduled x)
  else x.

(** [mixer.update(delta)] *)
Definition mixer_update (env : Env) (m : nat) (delta : num) : Eff unit :=
  if throws_update env then throw
  else modWorld (fun w => setActions (alter (advance delta) m (w_actions w)) w).

(** Whether a scene child carries geometry and material to dispose. *)
Definition hasResources (o : Object3D) : bool :=
  match o with
  | Grid | Model _ => true
  | AmbientLight | DirectionalLight => false
  end.

(** [scene.traverse(object => dispose its geometry and material)] *)
Definition scene_disposeAll (env : Env) (children : list Object3D) : Eff unit :=
  if throws_dispose env then throw
  else modWorld (fun w =>
         setDisposed (w_disposed w ++ List.filter hasResources children) w).

(** [renderer.dispose()] *)
Definition renderer_dispose (env : Env) : Eff unit :=
  if throws_dispose env then throw else ret tt.

(** ** The component's handlers *)

(** [updateSpeed], App.js lines 45-51. *)
Definition updateSpeed (newSpeed : num) : Eff unit :=
  setSpeed newSpeed;;
  r <- readRefs;
  match currentAnimationRef r, mixerRef r with
  | Some a, Some _ =>
      action_setEffectiveTimeScale a newSpeed;;
      addLog (LogSpeedSet newSpeed)
  | _, _ => ret tt
  end.

(** [togglePause], App.js lines 54-72.  [isPaused] is the value of the
    render that created the handler. *)
Definition togglePause (rd : Render) : Eff unit :=
  r <- readRefs;
  match mixerRef r, currentAnimationRef r with
  | Some _, Some a =>
      let newPausedState := negb (r_isPaused rd) in
      (if newPausedState
       then action_set_paused a true;; addLog LogPaused
       else action_set_paused a false;; addLog LogResumed);;
      setIsPaused newPausedState
  | _, _ => ret tt
  end.

(** [handleKeyPress] for the space key, App.js lines 288-294; it is
    registered anew whenever [isPaused] changes, so the flag it reads is
    the current one. *)
Definition handleKeyPress (rd : Render) : Eff unit :=
  togglePause rd;;
  addLog (LogKeyboardShortcut (r_isPaused rd)).

(** [{ ...anim, active: anim.id === animationId }] *)
Definition markActive (animationId : string) (anim : Descriptor)
  : Descriptor :=
  mkDescriptor (anim_id anim) (anim_name anim) (anim_loaded anim)
               (String.eqb (anim_id anim) animationId).

(** [{ ...anim, loaded: anim.id === animationId ? true : anim.loaded,
       active: anim.id === animationId }] *)
Definition markLoadedActive (animationId : string) (anim : Descriptor)
  : Descriptor :=
  mkDescriptor (anim_id anim) (anim_name anim)
               (if String.eqb (anim_id anim) animationId then true
                else anim_loaded anim)
               (String.eqb (anim_id anim) animationId).

(** [{ ...anim, active: anim.id === animationId ? false : anim.active }] *)
Definition clearActive (animationId : string) (anim : Descriptor)
  : Descriptor :=
  mkDescriptor (anim_id anim) (anim_name anim) (anim_loaded anim)
               (if String.eqb (anim_id anim) animationId then false
                else anim_active anim).

(** [handleAnimationChange], App.js lines 75-110.  [animations] in the
    [find] is the list of the render that created the handler, and so is
    the [loadAnimationModel] that the timer will call. *)
Definition handleAnimationChange (rd : Render) (animationId : string)
  : Eff unit :=
  match List.find (fun anim => String.eqb (anim_id anim) animationId)
                  (r_animations rd) with
  | None => addLog (LogNotFound animationId)
  | Some selectedAnim =>
      if anim_active selectedAnim then addLog (LogAlreadyActive animationId)
      else
        addLog (LogSwitching animationId);;
        setIsLoading true;;
        setLoadingProgress 0;;
        setSelectedAnimation animationId;;
        setAnimations (map (markActive animationId));;
        setIsPaused false;;
        setTimeout (mkTimer false animationId rd)
  end.

(** [loader.load(url, onLoad, onProgress, onError)] on a loader made for
    this call, App.js lines 135-142: [loadId] is read from the clock and
    stored on the new loader as [loadingId]. *)
Definition loader_load (env : Env) (rd : Render) (animationId : string)
  : Eff unit :=
  if throws_load env then throw
  else
    let loadId := env_now env in
    modWorld (fun w =>
      setLoads
        (w_loads w ++ [mkLoadReq (w_nextObj w) animationId loadId loadId rd])
        (setNextObj (S (w_nextObj w)) w)).

(** [loadAnimationModel], App.js lines 112-134 and 279-284: what runs
    before the load completes. *)
Definition loadAnimationModel (env : Env) (rd : Render) (animationId : string)
  : Eff unit :=
  r <- readRefs;
  match sceneRef r with
  | None => addLog (LogSceneNotInitialized animationId)
  | Some _ =>
      addLog (LogLoadingModel animationId);;
      (match modelRef r with
       | Some m => scene_remove (Model m);; setModelRef None
       | None => ret tt
       end);;
      (match mixerRef r with
       | Some mx =>
           mixer_stopAllAction env mx;;
           setMixerRef None;;
           setCurrentAnimationRef None
       | None => ret tt
       end);;
      tryCatch
        (loader_load env rd animationId)
        (addLog (LogLoadException animationId);; setIsLoading false)
  end.

(** The animation set-up inside the [try] of App.js lines 206-238.  The
    new mixer and its action take the number of the asset.  The loop mode
    and [clampWhenFinished] (lines 211-212) are not tracked. *)
Definition setupAnimation (env : Env) (rd : Render) (animationId : string)
    (obj : nat) : Eff unit :=
  newAnimationMixer env;;
  setMixerRef (Some obj);;
  mixer_clipAction env obj;;
  action_set_timeScale obj (r_speed rd);;
  action_reset obj;;
  action_play obj;;
  setCurrentAnimationRef (Some obj);;
  when (r_isPaused rd) (action_set_paused obj true);;
  running <- action_isRunning obj;
  when (negb running && negb (r_isPaused rd))
       (addLog LogForcingStart;; action_play obj);;
  addLog (LogStarted (r_speed rd));;
  setAnimations (map (markLoadedActive animationId)).

(** The success callback of the load, App.js lines 144-252.  [speed] and
    [isPaused] are those of the render whose [loadAnimationModel] issued
    the load.  The materials that lines 182-194 put on the meshes are not
    tracked. *)
Definition onLoad (env : Env) (rq : LoadReq) (fbx : Asset) : Eff unit :=
  let animationId := rq_animationId rq in
  let rd := rq_render rq in
  let obj := rq_obj rq in
  if negb (Z.eqb (rq_loadingId rq) (rq_loadId rq))
  then addLog (LogIgnoringCompleted animationId)
  else
    addLog (LogLoadedOk animationId);;
    setIsLoading false;;
    let box := fbx_box fbx in
    when (isEmpty box) (addLog LogBoxEmpty);;
    (if degenerate box then addLog LogDefaultScale
     else addLog (LogScaled (pl_scale (autoScaleAndCenter box))));;
    modWorld (fun w =>
      setPlacements (<[obj := autoScaleAndCenter box]> (w_placements w)) w);;
    setModelRef (Some obj);;
    r <- readRefs;
    match sceneRef r with
    | Some _ =>
        scene_add (Model obj);;
        if (0 <? fbx_animations fbx)%nat then
          addLog (LogModelHasAnimations (fbx_animations fbx));;
          tryCatch
            (setupAnimation env rd animationId obj)
            (addLog LogSetupError;; setIsLoading false)
        else
          addLog LogNoAnimations;; setIsLoading false
    | None =>
        addLog LogSceneGone;; setIsLoading false
    end.

(** The progress callback, App.js lines 253-264.  [percent] is the
    [Math.floor((xhr.loaded / xhr.total) * 100)] of the source, taken as
    given. *)
Definition onProgress (rq : LoadReq) (lengthComputable : bool) (percent : Z)
  : Eff unit :=
  when lengthComputable
    (setLoadingProgress percent;;
     when (Z.eqb (Z.rem percent 10) 0)
          (addLog (LogProgress (rq_animationId rq) percent))).

(** The error callback, App.js lines 265-277. *)
Definition onError (rq : LoadReq) : Eff unit :=
  let animationId := rq_animationId rq in
  addLog (LogLoadError animationId);;
  setIsLoading false;;
  setAnimations (map (clearActive animationId)).

(** [animate], App.js lines 409-424; drawing is left out. *)
Definition animate (env : Env) : Eff unit :=
  handle <- requestAnimationFrame;
  setAnimationFrameIdRef (Some handle);;
  r <- readRefs;
  match mixerRef r with
  | Some m =>
      tryCatch (mixer_update env m (env_delta env)) (addLog LogUpdateError)
  | None => ret tt
  end.

(** The body of the mount effect, App.js lines 305-449. *)
Definition mountEffect (env : Env) (rd : Render) : Eff unit :=
  addLog LogMounted;;
  r <- readRefs;
  match sceneRef r with
  | Some _ => addLog LogSceneExists
  | None =>
      setSceneRef (Some []);;
      addLog LogSceneCreated;;
      addLog LogCameraCreated;;
      setRendererRef true;;
      if mountRef r then
        modWorld (setCanvas true);;
        addLog LogRendererAttached;;
        addLog LogGroundCreated;;
        scene_add Grid;;
        addLog LogGridCreated;;
        addLog LogCubeCreated;;
        addLog LogAxesCreated;;
        scene_add AmbientLight;;
        scene_add DirectionalLight;;
        addLog LogLightsCreated;;
        addLog LogControlsCreated;;
        setClockRef true;;
        setTimeout (mkTimer true "startwalk" rd);;
        animate env;;
        modWorld (setResize true);;
        modWorld (setCleanup true)
      else
        addLog LogMountRefMissing
  end.

(** A JavaScript number used as a condition: zero is false. *)
Definition truthy (n : nat) : bool := negb (n =? 0)%nat.

(** The cleanup function of the mount effect, App.js lines 452-508. *)
Definition cleanup (env : Env) : Eff unit :=
  addLog LogUnmounting;;
  modWorld (setResize false);;
  r <- readRefs;
  (match animationFrameIdRef r with
   | Some handle => when (truthy handle) (cancelAnimationFrame handle)
   | None => ret tt
   end);;
  (match mixerRef r with
   | Some m => tryCatch (mixer_stopAllAction env m) (addLog LogStopError)
   | None => ret tt
   end);;
  w <- readWorld;
  when (mountRef r && rendererRef r && w_canvas w)
       (modWorld (setCanvas false));;
  tryCatch
    (when (rendererRef r) (renderer_dispose env);;
     match sceneRef r with
     | Some children => scene_disposeAll env children
     | None => ret tt
     end)
    (addLog LogCleanupError);;
  setSceneRef None;;
  setModelRef None;;
  setMixerRef None;;
  setCurrentAnimationRef None;;
  setRendererRef false;;
  setClockRef false;;
  setAnimationFrameIdRef None.

(** The callback of a timer, App.js lines 107-109 and 427-435. *)
Definition timerCallback (env : Env) (t : Timer) : Eff unit :=
  loadAnimationModel env (tm_render t) (tm_animationId t);;
  when (tm_initial t) (setAnimations (map (markActive "startwalk"))).

(** ** Events *)

Inductive Event : Type :=
| EvMount                            (* React runs the mount effect *)
| EvUnmount                          (* React runs its cleanup *)
| EvFrame                            (* the browser runs a scheduled frame *)
| EvTimer (i : nat)                  (* the i-th pending timer fires *)
| EvSelect (animationId : string)    (* the dropdown's onChange *)
| EvTogglePause                      (* the pause button's onClick *)
| EvSpaceKey                         (* keydown of the space key *)
| EvSetSpeed (v : num)               (* the slider's onChange *)
| EvProgress (i : nat) (lengthComputable : bool) (percent : Z)
| EvLoaded (i : nat) (fbx : Asset)   (* the i-th load in flight succeeds *)
| EvLoadError (i : nat).             (* the i-th load in flight fails *)

(** The values of the latest render. *)
Definition readRender : Eff Render := fun s => (s, Normal (render_of s)).

(** A handler wired to the interface is the one of the latest render; a
    timer or load callback is the one made when it was registered.  That
    the button and the slider are disabled while [isLoading] is set is not
    modelled: an event may come in any state (the space key is never
    disabled). *)
Definition dispatch (env : Env) (e : Event) : Eff unit :=
  match e with
  | EvMount => rd <- readRender; mountEffect env rd
  | EvUnmount =>
      w <- readWorld;
      when (w_cleanup w) (modWorld (setCleanup false);; cleanup env)
  | EvFrame =>
      w <- readWorld;
      match w_rafPending w with
      | handle :: _ =>
          modWorld (fun w => setRaf (w_rafNext w) (tail (w_rafPending w)) w);;
          animate env
      | [] => ret tt
      end
  | EvTimer i =>
      w <- readWorld;
      match w_timers w !! i with
      | Some t =>
          modWorld (fun w => setTimers (delete i (w_timers w)) w);;
          timerCallback env t
      | None => ret tt
      end
  | EvSelect animationId =>
      rd <- readRender; handleAnimationChange rd animationId
  | EvTogglePause => rd <- readRender; togglePause rd
  | EvSpaceKey => rd <- readRender; handleKeyPress rd
  | EvSetSpeed v => updateSpeed v
  | EvProgress i lengthComputable percent =>
      w <- readWorld;
      match w_loads w !! i with
      | Some rq => onProgress rq lengthComputable percent
      | None => ret tt
      end
  | EvLoaded i fbx =>
      w <- readWorld;
      match w_loads w !! i with
      | Some rq =>
          modWorld (fun w => setLoads (delete i (w_loads w)) w);;
          onLoad env rq fbx
      | None => ret tt
      end
  | EvLoadError i =>
      w <- readWorld;
      match w_loads w !! i with
      | Some rq =>
          modWorld (fun w => setLoads (delete i (w_loads w)) w);;
          onError rq
      | None => ret tt
      end
  end.

(** An exception that leaves a handler is reported by the browser and
    dropped; the state stays as the handler left it. *)
Definition step (env : Env) (e : Event) (s : State) : State :=
  fst (dispatch env e s).

Fixpoint run (tr : list (Env * Event)) (s : State) : State :=
  match tr with
  | [] => s
  | (env, e) :: tr' => run tr' (step env e s)
  end.

Inductive reachable : State -> Prop :=
| reach_init : reachable initialState
| reach_step s env e : reachable s -> reachable (step env e s).

(** ** What the component renders *)

(** An entry of the dropdown: [{ value, label }]. *)
Record DropdownOption : Type := mkOption {
  opt_value : string;
  opt_label : string
}.

(** [animationOptions], App.js lines 24-27. *)
Definition animationOptions (animations : list Descriptor)
  : list DropdownOption :=
  map (fun anim => mkOption (anim_id anim) (anim_name anim)) animations.

(** [a || b] where [a] is a string that may be missing: [undefined] and
    the empty string are falsy. *)
Definition orElse (a : option string) (b : string) : string :=
  match a with
  | None | Some EmptyString => b
  | Some x => x
  end.

(** The text of the current-animation indicator, App.js line 812:
    [animations.find(a => a.active)?.name || 'No animation']. *)
Definition currentAnimationText (animations : list Descriptor) : string :=
  orElse (anim_name <$> List.find anim_active animations) "No animation".

(** The [keydown] listener of App.js lines 288-294 with its test of the
    key: [event.code === 'Space' || event.key === ' ']. *)
Definition keydownListener (rd : Render) (code key : string) : Eff unit :=
  if String.eqb code "Space" || String.eqb key " "
  then handleKeyPress rd
  else ret tt.

(** ** The dropdown ([Dropdown], imported by App.js line 5) *)

Module Dropdown.

(** [selectedOption]: [options.find(option => option.value === value)]. *)
Definition selectedOption (options : list DropdownOption) (value : string)
  : option DropdownOption :=
  List.find (fun option => String.eqb (opt_value option) value) options.

(** The text of the trigger: [selectedOption?.label || placeholder]. *)
Definition triggerText (options : list DropdownOption) (value : string)
    (placeholder : string) : string :=
  orElse (opt_label <$> selectedOption options value) placeholder.

(** [toggleDropdown]: [setIsOpen(!isOpen)]. *)
Definition toggleDropdown (isOpen : bool) : bool := negb isOpen.

(** [handleClickOutside]: [attached] says that [dropdownRef.current] is
    set, [inside] that it contains the target of the event. *)
Definition handleClickOutside (attached inside : bool) (isOpen : bool)
  : bool :=
  if attached && negb inside then false else isOpen.

End Dropdown.

(** The viewer together with the [isOpen] state of its dropdown. *)
Record Page : Type := mkPage { viewer : State; isOpen : bool }.

Definition initialPage : Page := mkPage initialState false.

(** [handleOptionClick]: [onChange(optionValue); setIsOpen(false)]. *)
Definition handleOptionClick (onChange : string -> Eff unit)
    (optionValue : string) (p : Page) : Page :=
  match onChange optionValue (viewer p) with
  | (s, Normal _) => mkPage s false
  | (s, Thrown) => mkPage s (isOpen p)
  end.

Inductive Gesture : Type :=
| ClickTrigger                (* a click on the trigger of the dropdown *)
| ClickOption (k : nat)       (* a click on the k-th entry of the menu *)
| MouseDown (inside : bool)   (* mousedown, inside the dropdown or not *)
| Other (e : Event).          (* an event of the viewer *)

(** The dropdown is rendered with the props of App.js lines 599-604:
    the options of the latest render and its [handleAnimationChange].  The
    menu and its entries exist only while [isOpen] is set. *)
Definition page_step (env : Env) (g : Gesture) (p : Page) : Page :=
  match g with
  | ClickTrigger => mkPage (viewer p) (Dropdown.toggleDropdown (isOpen p))
  | ClickOption k =>
      if isOpen p then
        match animationOptions (animations (ui (viewer p))) !! k with
        | Some option =>
            handleOptionClick (handleAnimationChange (render_of (viewer p)))
                              (opt_value option) p
        | None => p
        end
      else p
  | MouseDown inside =>
      mkPage (viewer p) (Dropdown.handleClickOutside true inside (isOpen p))
  | Other e => mkPage (step env e (viewer p)) (isOpen p)
  end.

Fixpoint page_run (tr : list (Env * Gesture)) (p : Page) : Page :=
  match tr with
  | [] => p
  | (env, g) :: tr' => page_run tr' (page_step env g p)
  end.

(** ** Notions used in the statements *)


(** A computation that never throws. *)
Definition nothrow {A} (m : Eff A) : Prop :=
  forall s, exists a, snd (m s) = Normal a.

(** A computation whose final state is always related to its initial one. *)
Definition stable (R : State -> State -> Prop) {A} (m : Eff A) : Prop :=
  forall s, R s (fst (m s)).


(** A computation that leaves a part of the state as it was. *)
Definition keeps {X A} (f : State -> X) (m : Eff A) : Prop :=
  stable (fun s s' => f s' = f s) m.

(** A computation that maintains a property of the state. *)
Definition preserves {A} (P : State -> Prop) (m : Eff A) : Prop :=
  stable (fun s s' => P s -> P s') m.

(** The number of descriptors with [active] set. *)
Definition activeCount (l : list Descriptor) : nat :=
  length (List.filter anim_active l).

(** Every descriptor of the list is active exactly when its id is [target]. *)
Definition onlyActive (target : string) (l : list Descriptor) : Prop :=
  forall d, In d l -> anim_active d = String.eqb (anim_id d) target.




(** The ids of the descriptors never change. *)
Definition ids_fixed (s : State) : Prop :=
  map anim_id (animations (ui s)) = map anim_id initialAnimations.

(** The descriptors are those of the source and at most one is active. *)
Definition descriptors_ok (s : State) : Prop :=
  ids_fixed s /\ activeCount (animations (ui s)) <= 1.

(** The part of the state that the frame loop lives in. *)
Definition frameLoop (s : State) : nat * list nat * option nat * bool :=
  (w_rafNext (world s), w_rafPending (world s), animationFrameIdRef (refs s),
   match sceneRef (refs s) with Some _ => true | None => false end).

(** The only scheduled frame, if any, is the one whose handle is in
    [animationFrameIdRef], and there is none without a scene. *)
Definition raf_ok (s : State) : Prop :=
  w_rafNext (world s) <> 0 /\
  match animationFrameIdRef (refs s) with
  | Some handle =>
      handle <> 0 /\ w_rafPending (world s) = [handle] /\
      sceneRef (refs s) <> None
  | None => w_rafPending (world s) = []
  end.

(** Every load in flight still carries on its loader the [loadingId] that
    its own call stored there. *)
Definition tokens_ok (s : State) : Prop :=
  Forall (fun rq => rq_loadingId rq = rq_loadId rq) (w_loads (world s)).

(** After teardown: no scene, no mixer, no scheduled frame. *)
Definition torn_down (s : State) : Prop :=
  sceneRef (refs s) = None /\ mixerRef (refs s) = None /\
  w_rafPending (world s) = [].

Definition no_mount (tr : list (Env * Event)) : Prop :=
  Forall (fun p => snd p <> EvMount) tr.

(** The ids of the source's descriptors. *)
Definition knownIds : list string := map anim_id initialAnimations.


(** A computation that, from a state satisfying [P], completes and leaves
    a state satisfying [Q]. *)
Definition hoare (P : State -> Prop) {A} (m : Eff A) (Q : State -> Prop)
  : Prop :=
  forall s, P s -> exists a, snd (m s) = Normal a /\ Q (fst (m s)).

(** The clip action numbered [obj] is [x]. *)
Definition actionIs (obj : nat) (x : Action) (s : State) : Prop :=
  w_actions (world s) !! obj = Some x.

(** The log of the second state is the log of the first followed by
    entries that all satisfy [P]. *)
Definition logGrows (P : LogMsg -> Prop) (s s' : State) : Prop :=
  exists l, log (ui s') = log (ui s) ++ l /\ Forall P l.

(** The state with more log entries. *)
Definition logged (l : list LogMsg) (s : State) : State :=
  mkState (mkUI (log (ui s) ++ l) (speed (ui s)) (isPaused (ui s))
                (isLoading (ui s)) (loadingProgress (ui s))
                (selectedAnimation (ui s)) (animations (ui s)))
          (refs s) (world s).

(** The state with another progress value. *)
Definition withProgress (percent : Z) (s : State) : State :=
  mkState (mkUI (log (ui s)) (speed (ui s)) (isPaused (ui s))
                (isLoading (ui s)) percent
                (selectedAnimation (ui s)) (animations (ui s)))
          (refs s) (world s).

(** The descriptors [l'] are those of [l], in the same order, with the
    same ids and names, and every one that was loaded still is. *)
Definition sameEntries (l l' : list Descriptor) : Prop :=
  Forall2 (fun d d' => anim_id d' = anim_id d /\ anim_name d' = anim_name d /\
                       (anim_loaded d = true -> anim_loaded d' = true)) l l'.

Definition entriesKept (s s' : State) : Prop :=
  sameEntries (animations (ui s)) (animations (ui s')).

(** The ids and names of the descriptors. *)
Definition catalogue (l : list Descriptor) : list (string * string) :=
  map (fun d => (anim_id d, anim_name d)) l.

(** The descriptors carry the ids and names of the source, and the
    selected animation is one of them. *)
Definition selection_ok (s : State) : Prop :=
  catalogue (animations (ui s)) = catalogue initialAnimations /\
  In (selectedAnimation (ui s)) knownIds.





(** What the mount effect attaches to the scene. *)
Definition sceneFixtures : list Object3D :=
  [Grid; AmbientLight; DirectionalLight].

(** The children of a scene: the grid and the two lights, then loaded
    assets, none of them twice. *)
Definition sceneShape (children : list Object3D) : Prop :=
  exists models, children = sceneFixtures ++ map Model models /\
                 NoDup models.

Definition scene_ok (s : State) : Prop :=
  mountRef (refs s) = true /\
  forall children, sceneRef (refs s) = Some children -> sceneShape children.

(** Torn down, with no load in flight but some of those of [L]. *)
Definition loadsWithin (L : list LoadReq) (s : State) : Prop :=
  torn_down s /\ w_loads (world s) `sublist_of` L.

(** A log entry other than "not found". *)
Definition notNotFound (m : LogMsg) : Prop :=
  forall animationId, m <> LogNotFound animationId.

(** The log has no "not found" entry. *)
Definition allFound (s : State) : Prop :=
  forall animationId, ~ In (LogNotFound animationId) (log (ui s)).

(** The gestures that the interface offers: a selection reaches the viewer
    through the menu only. *)
Definition fromInterface (g : Gesture) : Prop :=
  match g with
  | Other (EvSelect _) => False
  | _ => True
  end.

(** ** Sample runs *)

(** An event during which the clock reads [now] and no engine call throws. *)
Definition quiet (now : Z) : Env :=
  mkEnv now (Fin (1 # 60)) false false false false false false.

Definition sampleBox : Box3 :=
  mkBox3 (mkVector3 (Fin (-1)) (Fin 0) (Fin (-2)))
         (mkVector3 (Fin 1) (Fin 4) (Fin 2)).

(** An asset with one clip. *)
Definition sampleAsset : Asset := mkAsset sampleBox 1.

(** The box of an asset without geometry. *)
Definition emptyBox : Box3 :=
  mkBox3 (mkVector3 PInf PInf PInf) (mkVector3 NInf NInf NInf).

(** Mount, the timer of the mount effect, the first load succeeds:
    "Walking" is shown and playing. *)
Definition firstLoad : list (Env * Event) :=
  [(quiet 0, EvMount); (quiet 100, EvTimer 0);
   (quiet 900, EvLoaded 0 sampleAsset)].

(** The state that [firstLoad] ends in. *)
Definition shown : State := Eval vm_compute in run firstLoad initialState.

(** "Sitting" is selected while the first load is still in flight, and its
    own load completes first: the request for "Walking" is superseded and
    still in flight. *)
Definition overtaken : list (Env * Event) :=
  [(quiet 0, EvMount); (quiet 100, EvTimer 0);
   (quiet 200, EvSelect "seated"); (quiet 250, EvTimer 0);
   (quiet 900, EvLoaded 1 sampleAsset)].

(** The state that [overtaken] ends in. *)
Definition superseded : State :=
  Eval vm_compute in run overtaken initialState.

(** From [shown]: "Sitting" is selected and its fetch fails. *)
Definition failedSelection : list (Env * Event) :=
  [(quiet 2000, EvSelect "seated"); (quiet 2050, EvTimer 0);
   (quiet 2900, EvLoadError 0)].

(** From [shown]: "Sitting" is selected and its load succeeds. *)
Definition replacedSelection : list (Env * Event) :=
  [(quiet 2000, EvSelect "seated"); (quiet 2050, EvTimer 0);
   (quiet 2900, EvLoaded 0 sampleAsset)].

(** From [shown]: the clip is paused, then "Sitting" is selected and its
    load succeeds. *)
Definition pausedSelection : list (Env * Event) :=
  (quiet 1500, EvTogglePause) :: replacedSelection.

(** From [shown]: the clip is paused and "Sitting" is selected; the timer
    of the selection has not fired yet, the old mixer is still attached. *)
Definition pauseThenSelect : list (Env * Event) :=
  [(quiet 1500, EvTogglePause); (quiet 2000, EvSelect "seated")].

(** [shown], then [pauseThenSelect]. *)
Definition justSelected : State :=
  Eval vm_compute in run pauseThenSelect shown.

(** [superseded], then the superseded load of "Walking" completes. *)
Definition lateCompletion : State :=
  Eval vm_compute in step (quiet 1200) (EvLoaded 0 sampleAsset) superseded.

(** [shown], then [failedSelection]. *)
Definition afterFailure : State :=
  Eval vm_compute in run failedSelection shown.

(** [shown], then [replacedSelection]. *)
Definition afterReplacement : State :=
  Eval vm_compute in run replacedSelection shown.

(** [shown], then [pausedSelection]. *)
Definition pausedThenLoaded : State :=
  Eval vm_compute in run pausedSelection shown.

(** The mount effect has run and its timer has fired: the first load
    is in flight. *)
Definition firstIssued : State :=
  Eval vm_compute in
    run [(quiet 0, EvMount); (quiet 100, EvTimer 0)] initialState.

(** [firstIssued], then the component is unmounted with the load still in
    flight. *)
Definition unmountedLoading : State :=
  Eval vm_compute in step (quiet 500) EvUnmount firstIssued.

(** The state after the mount effect and a selection of "Sitting" made
    before the timer of the mount effect fires. *)
Definition earlySelection : State :=
  Eval vm_compute in
    run [(quiet 0, EvMount); (quiet 40, EvSelect "seated")] initialState.

(** The initial state of a component whose mount node is missing. *)
Definition unattached : State :=
  mkState initialUI (mkRefs false None None None None false false None)
          initialWorld.

(** An asset without clips. *)
Definition staticAsset : Asset := mkAsset sampleBox 0.

(** A load of "Sitting" issued by the first render. *)
Definition sampleRequest : LoadReq :=
  mkLoadReq 7 "seated" 5 5 (mkRender (Fin 1) false initialAnimations).

(** An event during which [mixer.clipAction] throws. *)
Definition clipActionThrows : Env :=
  mkEnv 900 (Fin (1 # 60)) false false false true false false.

(** An event during which the loader throws. *)
Definition loaderThrows : Env :=
  mkEnv 2050 (Fin (1 # 60)) false true false false false false.

(** The first load completes, then the menu is opened and its second
    entry clicked. *)
Definition sampleGestures : list (Env * Gesture) :=
  [(quiet 0, Other EvMount); (quiet 100, Other (EvTimer 0));
   (quiet 900, Other (EvLoaded 0 sampleAsset));
   (quiet 1500, ClickTrigger); (quiet 1600, ClickOption 1)].

(** ** The claims that fail, as stated *)


(** C5 as stated: the model shown before is off the scene, its clip is
    stopped and its resources are disposed. *)
Definition previous_model_released (before after : State) : Prop :=
  forall m, modelRef (refs before) = Some m ->
    (forall children, sceneRef (refs after) = Some children ->
                      ~ In (Model m) children) /\
    (forall x, w_actions (world after) !! m = Some x ->
               act_scheduled x = false) /\
    In (Model m) (w_disposed (world after)).

(** C8 as stated, for a state with a mixer attached: two toggles bring
    back the flag and the action's [paused] property, and leave the clip
    time alone. *)
Definition double_toggle_restores (s : State) : Prop :=
  let s2 := step (quiet 0) EvTogglePause (step (quiet 0) EvTogglePause s) in
  mixerRef (refs s) <> None ->
  isPaused (ui s2) = isPaused (ui s) /\
  forall a, currentAnimationRef (refs s) = Some a ->
    act_paused <$> (w_actions (world s2) !! a)
      = act_paused <$> (w_actions (world s) !! a) /\
    act_time <$> (w_actions (world s2) !! a)
      = act_time <$> (w_actions (world s) !! a).

(** * Properties *)

(** ** Arithmetic of the normalisation *)

Section Normalisation.

Local Open Scope Q_scope.

Lemma lt_fin_false (x y : Q) : JSNum.lt (Fin y) (Fin x) = false -> x <= y.
Proof.
  cbn. intros H. apply negb_false_iff in H. now apply Qle_bool_iff.
Qed.












End Normalisation.

(** ** The normalisation on sample boxes *)

Example empty_box_is_degenerate :
  isEmpty emptyBox = true /\ maxDim emptyBox = Fin 0 /\
  degenerate emptyBox = true /\
  pl_scale (autoScaleAndCenter emptyBox) = defaultScale.
Proof. repeat split; reflexivity. Qed.

Example nan_box_is_degenerate :
  let box := mkBox3 (mkVector3 (Fin 0) NaN (Fin 0))
                    (mkVector3 (Fin 1) (Fin 1) (Fin 1)) in
  maxDim box = NaN /\ degenerate box = true /\
  pl_scale (autoScaleAndCenter box) = defaultScale.
Proof. repeat split; reflexivity. Qed.

Example unbounded_box_is_degenerate :
  let box := mkBox3 (mkVector3 (Fin 0) (Fin 0) (Fin 0))
                    (mkVector3 PInf (Fin 1) (Fin 1)) in
  maxDim box = PInf /\ degenerate box = true /\
  pl_scale (autoScaleAndCenter box) = defaultScale.
Proof. repeat split; reflexivity. Qed.

Example sample_box_is_normalised :
  degenerate sampleBox = false /\
  pl_scale (autoScaleAndCenter sampleBox) = Fin (100 # 4) /\
  JSNum.same (vy (box_min (placeBox (autoScaleAndCenter sampleBox) sampleBox)))
             (Fin 0) /\
  JSNum.same (vy (box_max (placeBox (autoScaleAndCenter sampleBox) sampleBox)))
             (Fin 100).
Proof. repeat split; reflexivity. Qed.

(** ** Reasoning about computations *)

Lemma run_bind {A B} (m : Eff A) (k : A -> Eff B) (s : State) :
  bind m k s =
  match snd (m s) with
  | Normal a => k a (fst (m s))
  | Thrown => (fst (m s), Thrown)
  end.
Proof. unfold bind. now destruct (m s) as [s1 [a|]]. Qed.

Lemma run_tryCatch (body handler : Eff unit) (s : State) :
  tryCatch body handler s =
  match snd (body s) with
  | Normal a => (fst (body s), Normal a)
  | Thrown => handler (fst (body s))
  end.
Proof. unfold tryCatch. now destruct (body s) as [s1 [a|]]. Qed.

Section NoThrow.

Lemma nothrow_ret {A} (a : A) : nothrow (ret a).
Proof. intros s. now exists a. Qed.

Lemma nothrow_bind {A B} (m : Eff A) (k : A -> Eff B) :
  nothrow m -> (forall a, nothrow (k a)) -> nothrow (bind m k).
Proof.
  intros Hm Hk s. rewrite run_bind. destruct (Hm s) as [a ->]. apply Hk.
Qed.

Lemma nothrow_tryCatch (body handler : Eff unit) :
  nothrow handler -> nothrow (tryCatch body handler).
Proof.
  intros Hh s. rewrite run_tryCatch.
  destruct (snd (body s)) as [a|]; [now exists a | apply Hh].
Qed.

Lemma nothrow_when (b : bool) (m : Eff unit) : nothrow m -> nothrow (when b m).
Proof. destruct b; [trivial | intros _; apply nothrow_ret]. Qed.

Lemma nothrow_readRefs : nothrow readRefs.
Proof. intros s. now eexists. Qed.

Lemma nothrow_readWorld : nothrow readWorld.
Proof. intros s. now eexists. Qed.

Lemma nothrow_readRender : nothrow readRender.
Proof. intros s. now eexists. Qed.

Lemma nothrow_modUI f : nothrow (modUI f).
Proof. intros s. now eexists. Qed.

Lemma nothrow_modRefs f : nothrow (modRefs f).
Proof. intros s. now eexists. Qed.

Lemma nothrow_modWorld f : nothrow (modWorld f).
Proof. intros s. now eexists. Qed.

End NoThrow.

Create HintDb nothrow.
Create HintDb prims.
Create HintDb engine.
Create HintDb handlers.
#[global] Hint Resolve nothrow_ret nothrow_readRefs nothrow_readWorld
  nothrow_readRender
  nothrow_modUI nothrow_modRefs nothrow_modWorld : nothrow.

#[global] Hint Unfold addLog setSpeed setIsPaused setIsLoading
  setLoadingProgress
  setSelectedAnimation setAnimations setMixerRef setModelRef setSceneRef
  setCurrentAnimationRef setRendererRef setClockRef setAnimationFrameIdRef
  requestAnimationFrame cancelAnimationFrame setTimeout scene_add scene_remove
  action_set_paused action_set_timeScale action_setEffectiveTimeScale
  action_reset action_play action_isRunning : prims.

(** Walks a computation along its binds, branches and handlers. *)
Ltac nothrow_walk :=
  repeat first
    [ progress intros
    | solve [auto with nothrow]
    | apply nothrow_bind
    | apply nothrow_tryCatch
    | apply nothrow_when
    | match goal with
      | |- nothrow (match ?x with _ => _ end) => destruct x
      | |- nothrow (let _ := _ in _) => cbv zeta
      end
    | progress autounfold with prims ].

Section Stable.

Variable R : State -> State -> Prop.
Hypothesis R_refl : forall s, R s s.
Hypothesis R_trans : forall s1 s2 s3, R s1 s2 -> R s2 s3 -> R s1 s3.

Lemma stable_ret {A} (a : A) : stable R (ret a).
Proof. intros s. apply R_refl. Qed.

Lemma stable_throw {A} : stable R (@throw A).
Proof. intros s. apply R_refl. Qed.

Lemma stable_bind {A B} (m : Eff A) (k : A -> Eff B) :
  stable R m -> (forall a, stable R (k a)) -> stable R (bind m k).
Proof.
  intros Hm Hk s. rewrite run_bind.
  destruct (snd (m s)) as [a|]; [|apply Hm].
  eapply R_trans; [apply Hm | apply Hk].
Qed.

Lemma stable_tryCatch (body handler : Eff unit) :
  stable R body -> stable R handler -> stable R (tryCatch body handler).
Proof.
  intros Hb Hh s. rewrite run_tryCatch.
  destruct (snd (body s)) as [a|]; [apply Hb|].
  eapply R_trans; [apply Hb | apply Hh].
Qed.

Lemma stable_when (b : bool) (m : Eff unit) : stable R m -> stable R (when b m).
Proof. destruct b; [trivial | intros _; apply stable_ret]. Qed.

Lemma stable_readRefs : stable R readRefs.
Proof. intros s. apply R_refl. Qed.

Lemma stable_readWorld : stable R readWorld.
Proof. intros s. apply R_refl. Qed.

Lemma stable_readRender : stable R readRender.
Proof. intros s. apply R_refl. Qed.

End Stable.

Lemma keeps_refl {X} (f : State -> X) (s : State) : f s = f s.
Proof. reflexivity. Qed.

Lemma keeps_trans {X} (f : State -> X) (s1 s2 s3 : State) :
  f s2 = f s1 -> f s3 = f s2 -> f s3 = f s1.
Proof. congruence. Qed.

Lemma preserves_refl (P : State -> Prop) (s : State) : P s -> P s.
Proof. trivial. Qed.

Lemma preserves_trans (P : State -> Prop) (s1 s2 s3 : State) :
  (P s1 -> P s2) -> (P s2 -> P s3) -> P s1 -> P s3.
Proof. auto. Qed.

#[global] Hint Unfold newAnimationMixer mixer_clipAction mixer_stopAllAction
  mixer_update scene_disposeAll renderer_dispose loader_load : engine.

#[global] Hint Unfold updateSpeed togglePause handleKeyPress
  handleAnimationChange
  loadAnimationModel setupAnimation onLoad onProgress onError animate
  mountEffect cleanup timerCallback : handlers.

(** Walks a computation down to its writes; [leaf] closes what a write
    leaves to prove. *)
Ltac stable_walk refl trans leaf :=
  repeat first
    [ progress intros
    | match goal with
      | |- stable ?R (ret _) => apply (stable_ret R refl)
      | |- stable ?R throw => apply (stable_throw R refl)
      | |- stable ?R readRefs => apply (stable_readRefs R refl)
      | |- stable ?R readWorld => apply (stable_readWorld R refl)
      | |- stable ?R readRender => apply (stable_readRender R refl)
      | |- stable ?R (bind _ _) => apply (stable_bind R trans)
      | |- stable ?R (tryCatch _ _) => apply (stable_tryCatch R trans)
      | |- stable ?R (when _ _) => apply (stable_when R refl)
      | |- stable _ (match ?x with _ => _ end) => destruct x
      | |- stable _ (let _ := _ in _) => cbv zeta
      | |- stable _ (modUI _) => solve [intros ?; leaf]
      | |- stable _ (modRefs _) => solve [intros ?; leaf]
      | |- stable _ (modWorld _) => solve [intros ?; leaf]
      end
    | progress autounfold with prims engine handlers ].

Ltac keeps_walk f :=
  unfold keeps;
  stable_walk (keeps_refl f) (keeps_trans f) ltac:(reflexivity).

Ltac preserves_walk P leaf :=
  unfold preserves;
  stable_walk (preserves_refl P) (preserves_trans P) leaf.

(** A read made in a state that satisfies [P] returns the refs, the world
    or the render values of such a state. *)
Lemma preserves_bind_readRefs (P : State -> Prop) {B} (k : Refs -> Eff B) :
  (forall r, (exists s, P s /\ refs s = r) -> preserves P (k r)) ->
  preserves P (bind readRefs k).
Proof.
  intros H s Hs. rewrite run_bind. cbn. apply (H (refs s)); eauto.
Qed.

Lemma preserves_bind_readWorld (P : State -> Prop) {B} (k : World -> Eff B) :
  (forall w, (exists s, P s /\ world s = w) -> preserves P (k w)) ->
  preserves P (bind readWorld k).
Proof.
  intros H s Hs. rewrite run_bind. cbn. apply (H (world s)); eauto.
Qed.

Lemma preserves_bind_readRender (P : State -> Prop) {B} (k : Render -> Eff B) :
  (forall rd, (exists s, P s /\ render_of s = rd) -> preserves P (k rd)) ->
  preserves P (bind readRender k).
Proof.
  intros H s Hs. rewrite run_bind. cbn. apply (H (render_of s)); eauto.
Qed.

(** ** What never throws *)

Lemma onLoad_nothrow env rq fbx : nothrow (onLoad env rq fbx).
Proof. unfold onLoad. nothrow_walk. Qed.

Lemma onError_nothrow rq : nothrow (onError rq).
Proof. unfold onError. nothrow_walk. Qed.

Lemma cleanup_nothrow env : nothrow (cleanup env).
Proof. unfold cleanup. nothrow_walk. Qed.

Lemma handleAnimationChange_nothrow rd animationId :
  nothrow (handleAnimationChange rd animationId).
Proof. unfold handleAnimationChange. nothrow_walk. Qed.

Lemma nothrow_unit (m : Eff unit) (s : State) :
  nothrow m -> snd (m s) = Normal tt.
Proof. intros H. destruct (H s) as [[] E]. exact E. Qed.

(** ** C6: normalisation of a loaded asset *)


(** ** Invariants of the reachable states *)

Lemma reachable_inv (P : State -> Prop) :
  P initialState ->
  (forall env e, preserves P (dispatch env e)) ->
  forall s, reachable s -> P s.
Proof.
  intros H0 Hstep s Hs. induction Hs as [|s env e _ IH]; [exact H0|].
  now apply (Hstep env e s).
Qed.

Ltac tokens_leaf :=
  unfold tokens_ok; cbn; intros H;
  first [ exact H
        | apply Forall_app; split; [exact H | repeat constructor]
        | apply Forall_delete; exact H ].

Lemma dispatch_tokens env e : preserves tokens_ok (dispatch env e).
Proof.
  destruct e; unfold dispatch; preserves_walk tokens_ok ltac:(tokens_leaf).
Qed.

(** The guard of App.js line 146 compares two copies of one value: no
    completion ever finds them different. *)
Lemma reachable_tokens (s : State) : reachable s -> tokens_ok s.
Proof.
  apply reachable_inv; [|apply dispatch_tokens].
  unfold tokens_ok. cbn. constructor.
Qed.

(** ** The descriptors *)

Section Descriptors.

Implicit Types (l : list Descriptor) (t : string).

Lemma ids_markActive t l : map anim_id (map (markActive t) l) = map anim_id l.
Proof. rewrite List.map_map. reflexivity. Qed.

Lemma ids_markLoadedActive t l :
  map anim_id (map (markLoadedActive t) l) = map anim_id l.
Proof. rewrite List.map_map. reflexivity. Qed.

Lemma ids_clearActive t l : map anim_id (map (clearActive t) l) = map anim_id l.
Proof. rewrite List.map_map. reflexivity. Qed.

(** Marking by id: as many active descriptors as occurrences of the id. *)
Lemma activeCount_absent (f : string -> Descriptor -> Descriptor) t l :
  (forall d, anim_active (f t d) = String.eqb (anim_id d) t) ->
  ~ In t (map anim_id l) -> activeCount (map (f t) l) = 0.
Proof.
  intros Hf. unfold activeCount. induction l as [|d l IH]; cbn; [reflexivity|].
  intros Hn. rewrite Hf.
  destruct (String.eqb_spec (anim_id d) t) as [E|E]; [tauto|].
  apply IH. tauto.
Qed.

Lemma activeCount_unique (f : string -> Descriptor -> Descriptor) t l :
  (forall d, anim_active (f t d) = String.eqb (anim_id d) t) ->
  List.NoDup (map anim_id l) -> activeCount (map (f t) l) <= 1.
Proof.
  intros Hf. induction l as [|d l IH]; cbn; [unfold activeCount; cbn; lia|].
  intros Hnd. apply List.NoDup_cons_iff in Hnd as [Hn Hnd].
  unfold activeCount in *. cbn. rewrite Hf.
  destruct (String.eqb_spec (anim_id d) t) as [E|E].
  - subst t. cbn. pose proof (activeCount_absent f _ l Hf Hn) as H0.
    unfold activeCount in H0. rewrite H0. lia.
  - now apply IH.
Qed.

Lemma activeCount_clearActive t l :
  activeCount (map (clearActive t) l) <= activeCount l.
Proof.
  unfold activeCount. induction l as [|d l IH]; cbn; [lia|].
  destruct (String.eqb (anim_id d) t), (anim_active d); cbn; lia.
Qed.

Lemma initial_ids_distinct : List.NoDup (map anim_id initialAnimations).
Proof.
  cbn. repeat constructor; cbn; intuition discriminate.
Qed.

Lemma onlyActive_mark (f : string -> Descriptor -> Descriptor) t l :
  (forall d, anim_active (f t d) = String.eqb (anim_id d) t) ->
  (forall d, anim_id (f t d) = anim_id d) ->
  onlyActive t (map (f t) l).
Proof.
  intros Hf Hid d Hd. apply List.in_map_iff in Hd as (d0 & <- & _).
  now rewrite Hf, Hid.
Qed.

End Descriptors.

Ltac descriptors_leaf :=
  unfold descriptors_ok, ids_fixed; cbn; intros [Hids Hc];
  first
    [ split; [exact Hids | exact Hc]
    | split;
      [ rewrite ?ids_markActive, ?ids_markLoadedActive, ?ids_clearActive;
        exact Hids
      | first
          [ apply (activeCount_unique markActive); [reflexivity|];
            rewrite Hids; apply initial_ids_distinct
          | apply (activeCount_unique markLoadedActive); [reflexivity|];
            rewrite Hids; apply initial_ids_distinct
          | etransitivity; [apply activeCount_clearActive | exact Hc] ] ] ].

Lemma dispatch_descriptors env e : preserves descriptors_ok (dispatch env e).
Proof.
  destruct e; unfold dispatch;
    preserves_walk descriptors_ok ltac:(descriptors_leaf).
Qed.

Lemma reachable_descriptors (s : State) : reachable s -> descriptors_ok s.
Proof.
  apply reachable_inv; [|apply dispatch_descriptors].
  split; [reflexivity | cbn; lia].
Qed.

Section OneUpdate.

(** A relation on a part [f] of the state that holds when the part is
    unchanged. *)
Context {X : Type} (f : State -> X) (Q : X -> X -> Prop).
Hypothesis Q_refl : forall x, Q x x.






End OneUpdate.










(** ** Targets of timers and loads *)








(** ** The shape of an update of the descriptors *)



(** ** C3: at most one active descriptor *)



(** ** The frame loop and teardown *)

Lemma frameLoop_raf_ok (s s' : State) :
  frameLoop s' = frameLoop s -> raf_ok s -> raf_ok s'.
Proof.
  unfold frameLoop, raf_ok. intros E. injection E as E1 E2 E3 E4.
  rewrite E1, E2, E3. intros [Hn H]. split; [exact Hn|].
  destruct (animationFrameIdRef (refs s)); [|exact H].
  destruct H as (H1 & H2 & H3). repeat split; auto.
  intros Hs. rewrite Hs in E4. now destruct (sceneRef (refs s)).
Qed.

Ltac frameLoop_leaf :=
  idtac;
  match goal with s : State |- _ =>
    destruct s as [? [? ? ? theScene ? ? ? ?] ?];
    cbv delta [frameLoop withChildren]; destruct theScene; reflexivity
  end.

Lemma dispatch_frameLoop env e :
  e <> EvMount -> e <> EvUnmount -> e <> EvFrame ->
  keeps frameLoop (dispatch env e).
Proof.
  intros H1 H2 H3. destruct e; try congruence; unfold dispatch, keeps;
    stable_walk (keeps_refl frameLoop) (keeps_trans frameLoop)
                ltac:(frameLoop_leaf).
Qed.




Lemma mount_raf_ok env s : raf_ok s -> raf_ok (step env EvMount s).
Proof.
  destruct s as [u r w]. destruct r, w, env. unfold raf_ok. cbn.
  intros [Hn H].
  destruct sceneRef0; [vm_compute; now split|].
  destruct animationFrameIdRef0 as [h|]; [tauto|]. subst.
  destruct mountRef0, mixerRef0, throws_update0; vm_compute;
    repeat split; try exact Hn; discriminate.
Qed.

Lemma frame_raf_ok env s : raf_ok s -> raf_ok (step env EvFrame s).
Proof.
  destruct s as [u r w]. destruct r, w, env. unfold raf_ok. cbn.
  intros [Hn H].
  destruct animationFrameIdRef0 as [h|].
  - destruct H as (H1 & -> & H3). destruct sceneRef0; [|contradiction].
    destruct mixerRef0, throws_update0; vm_compute;
      repeat split; try exact Hn; discriminate.
  - subst. vm_compute; now split.
Qed.

Lemma sameHandle_refl h : sameHandle h h = true.
Proof. apply Nat.eqb_refl. Qed.

Lemma cleanup_torn_down env s : raf_ok s -> torn_down (fst (cleanup env s)).
Proof.
  destruct s as [u r w]. destruct r, w, env. unfold raf_ok, torn_down. cbn.
  intros [Hn H].
  destruct animationFrameIdRef0 as [h|].
  - destruct H as (H1 & -> & H3). destruct h; [contradiction|].
    destruct mixerRef0, throws_stopAllAction0, mountRef0, rendererRef0,
      w_canvas0, throws_dispose0, sceneRef0;
      cbv -[sameHandle]; rewrite sameHandle_refl; cbn; auto.
  - subst.
    destruct mixerRef0, throws_stopAllAction0, mountRef0, rendererRef0,
      w_canvas0, throws_dispose0, sceneRef0; vm_compute; auto.
Qed.

Lemma unmount_raf_ok env s : raf_ok s -> raf_ok (step env EvUnmount s).
Proof.
  destruct s as [u r w]. destruct r, w, env. unfold raf_ok. cbn.
  intros [Hn H].
  destruct w_cleanup0; [|vm_compute; now split].
  destruct animationFrameIdRef0 as [h|].
  - destruct H as (H1 & -> & H3). destruct h; [contradiction|].
    destruct mixerRef0, throws_stopAllAction0, mountRef0, rendererRef0,
      w_canvas0, throws_dispose0, sceneRef0;
      cbv -[sameHandle]; rewrite sameHandle_refl; cbn; auto.
  - subst.
    destruct mixerRef0, throws_stopAllAction0, mountRef0, rendererRef0,
      w_canvas0, throws_dispose0, sceneRef0; vm_compute; auto.
Qed.

Lemma dispatch_raf_ok env e : preserves raf_ok (dispatch env e).
Proof.
  intros s.
  destruct e;
    first [ apply mount_raf_ok | apply unmount_raf_ok | apply frame_raf_ok
          | apply frameLoop_raf_ok, dispatch_frameLoop; discriminate ].
Qed.

Lemma reachable_raf_ok (s : State) : reachable s -> raf_ok s.
Proof.
  apply reachable_inv; [|apply dispatch_raf_ok].
  split; [discriminate | reflexivity].
Qed.

Ltac torn_down_contra :=
  exfalso;
  repeat match goal with
         | H : exists s, torn_down s /\ _ |- _ =>
             destruct H as (? & (? & ? & ?) & <-)
         end;
  congruence.

Ltac torn_down_leaf :=
  unfold torn_down; cbn; intros (? & ? & Hnopending);
  rewrite ?Hnopending; cbn; auto.

Ltac torn_down_walk :=
  repeat first
    [ progress intros
    | progress unfold preserves
    | match goal with
      | |- stable _ (bind readRefs _) =>
          apply (preserves_bind_readRefs torn_down)
      | |- stable _ (bind readWorld _) =>
          apply (preserves_bind_readWorld torn_down)
      | |- stable ?R (ret _) => apply (stable_ret R (preserves_refl torn_down))
      | |- stable ?R throw => apply (stable_throw R (preserves_refl torn_down))
      | |- stable ?R readRender =>
          apply (stable_readRender R (preserves_refl torn_down))
      | |- stable ?R (bind _ _) =>
          apply (stable_bind R (preserves_trans torn_down))
      | |- stable ?R (tryCatch _ _) =>
          apply (stable_tryCatch R (preserves_trans torn_down))
      | |- stable ?R (when _ _) =>
          apply (stable_when R (preserves_refl torn_down))
      | |- stable _ (match ?x with _ => _ end) =>
          destruct x eqn:?; try solve [torn_down_contra]
      | |- stable _ (let _ := _ in _) => cbv zeta
      | |- stable _ (modUI _) => solve [intros ?; torn_down_leaf]
      | |- stable _ (modRefs _) => solve [intros ?; torn_down_leaf]
      | |- stable _ (modWorld _) => solve [intros ?; torn_down_leaf]
      end
    | progress autounfold with prims engine handlers ].

Lemma dispatch_torn_down env e :
  e <> EvMount -> preserves torn_down (dispatch env e).
Proof.
  intros H. destruct e; try congruence; unfold dispatch, preserves;
    torn_down_walk.
Qed.

Lemma run_torn_down (tr : list (Env * Event)) (s : State) :
  no_mount tr -> torn_down s -> torn_down (run tr s).
Proof.
  revert s. induction tr as [|[env e] tr IH]; intros s Hn Hs; [exact Hs|].
  apply Forall_cons in Hn as [He Hn]. cbn. apply IH; [exact Hn|].
  now apply (dispatch_torn_down env e He s).
Qed.

Lemma frame_without_pending env s :
  w_rafPending (world s) = [] -> step env EvFrame s = s.
Proof.
  intros H. unfold step, dispatch. rewrite run_bind. cbn. rewrite H.
  reflexivity.
Qed.

Lemma unmount_runs_cleanup env s :
  w_cleanup (world s) = true ->
  dispatch env EvUnmount s =
  cleanup env (mkState (ui s) (refs s) (setCleanup false (world s))).
Proof.
  intros H. unfold dispatch, bind, readWorld, when, modWorld.
  cbv beta iota. rewrite H. reflexivity.
Qed.

(** C7.  Teardown of a mounted component, from any reachable state and
    whatever loads are in flight and whichever engine calls throw: the
    cleanup returns without throwing; afterwards no animation frame is
    scheduled, and there is no scene and no mixer.  This stays so through
    any later events short of a new mount: a frame event finds nothing to
    run and leaves the state as it is, and a load completion (or a timer)
    that arrives late finds no scene and attaches nothing. *)
Theorem teardown_spec (env : Env) (s : State) :
  reachable s ->
  w_cleanup (world s) = true ->
  snd (dispatch env EvUnmount s) = Normal tt /\
  torn_down (step env EvUnmount s) /\
  forall tr, no_mount tr ->
    let s' := run tr (step env EvUnmount s) in
    torn_down s' /\ forall env', step env' EvFrame s' = s'.
Proof.
  intros Hr Hc.
  assert (Ht : torn_down (step env EvUnmount s)).
  { unfold step. rewrite unmount_runs_cleanup by exact Hc.
    apply cleanup_torn_down. apply reachable_raf_ok in Hr. exact Hr. }
  split; [|split; [exact Ht|]].
  - apply nothrow_unit. unfold dispatch. nothrow_walk.
  - intros tr Hn s'. assert (Hs' : torn_down s') by now apply run_torn_down.
    split; [exact Hs'|]. intros env'. apply frame_without_pending, Hs'.
Qed.


Lemma teardown_spec_witness :
  torn_down
    (step (quiet 5000) EvUnmount
       (step (quiet 100) (EvTimer 0) (step (quiet 0) EvMount initialState))).
Proof.
  refine (proj1 (proj2 (teardown_spec (quiet 5000) _ _ _))).
  - apply reach_step, reach_step, reach_init.
  - vm_compute. reflexivity.
Defined.

(** ** The sample runs *)

Lemma reachable_run (tr : list (Env * Event)) (s : State) :
  reachable s -> reachable (run tr s).
Proof.
  revert s. induction tr as [|[env e] tr IH]; intros s Hs; [exact Hs|].
  cbn. apply IH. now constructor.
Qed.

Lemma shown_run : shown = run firstLoad initialState.
Proof. vm_compute. reflexivity. Qed.

Lemma superseded_run : superseded = run overtaken initialState.
Proof. vm_compute. reflexivity. Qed.

Lemma justSelected_run : justSelected = run pauseThenSelect shown.
Proof. vm_compute. reflexivity. Qed.

Lemma lateCompletion_run :
  lateCompletion = step (quiet 1200) (EvLoaded 0 sampleAsset) superseded.
Proof. vm_compute. reflexivity. Qed.

Lemma afterFailure_run : afterFailure = run failedSelection shown.
Proof. vm_compute. reflexivity. Qed.

Lemma afterReplacement_run : afterReplacement = run replacedSelection shown.
Proof. vm_compute. reflexivity. Qed.

Lemma pausedThenLoaded_run : pausedThenLoaded = run pausedSelection shown.
Proof. vm_compute. reflexivity. Qed.

Lemma shown_reachable : reachable shown.
Proof. rewrite shown_run. apply reachable_run, reach_init. Qed.

Lemma superseded_reachable : reachable superseded.
Proof. rewrite superseded_run. apply reachable_run, reach_init. Qed.

Lemma justSelected_reachable : reachable justSelected.
Proof. rewrite justSelected_run. apply reachable_run, shown_reachable. Qed.

(** ** Every completion is applied *)

Lemma establishes_then_keeps {X A B} (f : State -> X) (v : X)
    (m : Eff A) (k : A -> Eff B) :
  (forall s, f (fst (m s)) = v) ->
  (forall a, keeps f (k a)) ->
  forall s, f (fst (bind m k s)) = v.
Proof.
  intros Hm Hk s. rewrite run_bind.
  destruct (snd (m s)) as [a|]; cbn [fst]; [|apply Hm].
  rewrite (Hk a (fst (m s))). apply Hm.
Qed.

Lemma skip_then_establishes {X A B} (f : State -> X) (v : X)
    (m : Eff A) (k : A -> Eff B) :
  nothrow m ->
  (forall a s, f (fst (k a s)) = v) ->
  forall s, f (fst (bind m k s)) = v.
Proof.
  intros Hm Hk s. rewrite run_bind. destruct (Hm s) as [a ->]. apply Hk.
Qed.

Ltac modelRef_leaf :=
  idtac;
  match goal with s : State |- _ =>
    destruct s as [? [? ? ? theScene ? ? ? ?] ?];
    cbv delta [withChildren]; destruct theScene; reflexivity
  end.

(** Whatever the state, the success callback of a load whose loader still
    carries its [loadingId] puts the loaded asset in [modelRef]. *)
Lemma onLoad_sets_model (env : Env) (rq : LoadReq) (fbx : Asset) (s : State) :
  rq_loadingId rq = rq_loadId rq ->
  modelRef (refs (fst (onLoad env rq fbx s))) = Some (rq_obj rq).
Proof.
  intros Ht. revert s. unfold onLoad. rewrite Ht, Z.eqb_refl. cbn [negb].
  repeat lazymatch goal with
         | |- forall s, modelRef (refs (fst (bind (setModelRef _) _ s))) = _ =>
             apply (establishes_then_keeps (fun s => modelRef (refs s)));
             [ reflexivity
             | intros _; unfold keeps;
               stable_walk (keeps_refl (fun s => modelRef (refs s)))
                           (keeps_trans (fun s => modelRef (refs s)))
                           ltac:(modelRef_leaf) ]
         | |- forall s, modelRef (refs (fst (bind _ _ s))) = _ =>
             apply (skip_then_establishes (fun s => modelRef (refs s)));
             [ nothrow_walk | intros _ ]
         end.
Qed.

(** In a reachable state every load in flight, superseded or not, replaces
    the model when it completes. *)
Lemma completion_overwrites_model (env : Env) (s : State) (i : nat)
    (rq : LoadReq) (fbx : Asset) :
  reachable s ->
  w_loads (world s) !! i = Some rq ->
  modelRef (refs (step env (EvLoaded i fbx) s)) = Some (rq_obj rq).
Proof.
  intros Hr Hl.
  assert (Ht : rq_loadingId rq = rq_loadId rq).
  { pose proof (reachable_tokens s Hr) as H. unfold tokens_ok in H.
    rewrite Forall_lookup in H. exact (H i rq Hl). }
  unfold step, dispatch. rewrite run_bind. cbn [readWorld snd fst].
  rewrite Hl. rewrite run_bind. cbn [modWorld snd fst].
  now apply onLoad_sets_model.
Qed.

(** ** C1: completion of a superseded load *)

(** C1, at the failing input.  In [superseded] the newest request, for
    "Sitting", has completed and is shown, and the older request for
    "Walking" is the only load in flight.  When that older load completes,
    the guard of line 146 lets it through: it replaces the model ref, the
    mixer and the clip action, attaches its asset next to the one shown,
    and makes "Walking" the active descriptor; no "ignoring" entry is
    logged. *)
Theorem superseded_load_is_applied :
  map rq_animationId (w_loads (world superseded)) = ["startwalk"] /\
  selectedAnimation (ui superseded) = "seated" /\
  modelRef (refs superseded) = Some 1 /\
  mixerRef (refs superseded) = Some 1 /\
  map anim_id (List.filter anim_active (animations (ui superseded)))
    = ["seated"] /\
  modelRef (refs lateCompletion) = Some 0 /\
  mixerRef (refs lateCompletion) = Some 0 /\
  currentAnimationRef (refs lateCompletion) = Some 0 /\
  sceneRef (refs lateCompletion)
    = Some [Grid; AmbientLight; DirectionalLight; Model 1; Model 0] /\
  map anim_id (List.filter anim_active (animations (ui lateCompletion)))
    = ["startwalk"] /\
  selectedAnimation (ui lateCompletion) = "seated" /\
  ~ In (LogIgnoringCompleted "startwalk") (log (ui lateCompletion)).
Proof.
  repeat split; try reflexivity.
  cbn. intuition discriminate.
Qed.

(** ** The flag and the speed that a load applies *)

Section Triples.

Lemma hoare_bind {A B} P R Q (m : Eff A) (k : A -> Eff B) :
  hoare P m R -> (forall a, hoare R (k a) Q) -> hoare P (bind m k) Q.
Proof.
  intros Hm Hk s Hs. rewrite run_bind.
  destruct (Hm s Hs) as (a & -> & Hr). now apply Hk.
Qed.

Lemma hoare_ret {A} P (a : A) : hoare P (ret a) P.
Proof. intros s Hs. now exists a. Qed.

Lemma hoare_readWorld P : hoare P readWorld P.
Proof. intros s Hs. now eexists. Qed.

Lemma hoare_modUI obj x f : hoare (actionIs obj x) (modUI f) (actionIs obj x).
Proof. intros s Hs. now exists tt. Qed.

Lemma hoare_modRefs obj x f :
  hoare (actionIs obj x) (modRefs f) (actionIs obj x).
Proof. intros s Hs. now exists tt. Qed.

Lemma hoare_modRefs_any f :
  hoare (fun _ => True) (modRefs f) (fun _ => True).
Proof. intros s Hs. now exists tt. Qed.

Lemma hoare_alter obj x g :
  hoare (actionIs obj x)
        (modWorld (fun w => setActions (alter g obj (w_actions w)) w))
        (actionIs obj (g x)).
Proof.
  intros s Hs. exists tt. split; [reflexivity|].
  unfold actionIs in *. cbn. now rewrite lookup_alter_eq, Hs.
Qed.

Lemma hoare_insert P obj x :
  hoare P (modWorld (fun w => setActions (<[obj := x]> (w_actions w)) w))
        (actionIs obj x).
Proof.
  intros s Hs. exists tt. split; [reflexivity|].
  unfold actionIs. cbn. apply lookup_insert_eq.
Qed.

End Triples.

Ltac hoare_leaf :=
  first [ apply hoare_modUI | apply hoare_modRefs | apply hoare_alter
        | apply hoare_insert | apply hoare_ret | apply hoare_readWorld ].

Ltac hoare_step :=
  lazymatch goal with
  | |- hoare _ (bind (when ?c _) _) _ => destruct c; cbn [when negb andb]
  | |- hoare _ (bind (bind _ _) _) _ =>
      eapply hoare_bind;
      [eapply hoare_bind; [hoare_leaf | intros; hoare_leaf] | intros]
  | |- hoare _ (bind _ _) _ => eapply hoare_bind; [hoare_leaf | intros]
  | |- hoare _ _ _ => hoare_leaf
  end.

(** The clip action that a completed load sets up is paused exactly when
    the paused flag captured by the load was set, and runs at the captured
    speed, whatever the paused flag and the speed are by then. *)
Lemma setupAnimation_action (env : Env) (rd : Render) (animationId : string)
    (obj : nat) (s : State) :
  throws_newMixer env = false ->
  throws_clipAction env = false ->
  w_actions (world (fst (setupAnimation env rd animationId obj s))) !! obj
    = Some (mkAction (r_isPaused rd) (r_speed rd) (Fin 0) true).
Proof.
  intros Hm Hc.
  enough (H : hoare (fun _ => True) (setupAnimation env rd animationId obj)
                    (actionIs obj (mkAction (r_isPaused rd) (r_speed rd)
                                            (Fin 0) true)))
    by (destruct (H s I) as (_ & _ & Hq); exact Hq).
  unfold setupAnimation, newAnimationMixer, mixer_clipAction.
  rewrite Hm, Hc. autounfold with prims.
  eapply hoare_bind; [apply hoare_ret|]. intros _.
  eapply hoare_bind; [apply hoare_modRefs_any|]. intros _.
  destruct (r_isPaused rd); repeat hoare_step.
Qed.

(** ** C4: the paused flag seen by a load *)

Lemma selection_resets_pause (env : Env) (s : State) (animationId : string)
    (d : Descriptor) :
  List.find (fun anim => String.eqb (anim_id anim) animationId)
            (animations (ui s)) = Some d ->
  anim_active d = false ->
  isPaused (ui (step env (EvSelect animationId) s)) = false.
Proof.
  intros Hf Ha. unfold step, dispatch, handleAnimationChange.
  rewrite run_bind. cbn [readRender snd fst render_of r_animations].
  rewrite Hf, Ha. reflexivity.
Qed.

(** C4, at the failing input.  From [shown] the clip is paused and then
    "Sitting" is selected.  The selection resets the paused flag, and the
    flag is still false when the load completes; yet the new clip action is
    left paused, because the load callback reads the flag of the render in
    which the selection was made. *)
Theorem selection_while_paused_loads_paused :
  isPaused (ui justSelected) = false /\
  isPaused (ui pausedThenLoaded) = false /\
  isLoading (ui pausedThenLoaded) = false /\
  currentAnimationRef (refs pausedThenLoaded) = Some 1 /\
  w_actions (world pausedThenLoaded) !! 1
    = Some (mkAction true (Fin 1) (Fin 0) true).
Proof. repeat split; reflexivity. Qed.

(** ** C2 and C5: what issuing a load does to the model on display *)


Lemma disposal_only_at_unmount (env : Env) (e : Event) :
  e <> EvUnmount -> keeps (fun s => w_disposed (world s)) (dispatch env e).
Proof.
  intros H. destruct e; try congruence; unfold dispatch;
    keeps_walk (fun s => w_disposed (world s)).
Qed.




(** C5 as stated fails from [shown]: after the replacement nothing of the
    previous model has been disposed. *)
Lemma previous_model_not_disposed :
  ~ previous_model_released shown afterReplacement.
Proof.
  intros H. destruct (H 0 eq_refl) as (_ & _ & Hd). destruct Hd.
Qed.

(** C5, amended.  When a load is issued in a state with a scene and a model
    on display (and no engine call throws), that model is taken off the
    scene, its mixer is stopped, and the model, mixer and clip refs are
    cleared, all before the request is even in flight and so before the
    new asset is attached.  Nothing is disposed then, nor by any event
    other than teardown. *)
Theorem replacement_spec (env : Env) (rd : Render) (animationId : string)
    (s : State) (children : list Object3D) (m : nat) :
  sceneRef (refs s) = Some children ->
  modelRef (refs s) = Some m ->
  throws_stopAllAction env = false ->
  throws_load env = false ->
  let s1 := fst (loadAnimationModel env rd animationId s) in
  sceneRef (refs s1) = Some (filter (fun c => c ≠ Model m) children) /\
  (Model m ∉ filter (fun c => c ≠ Model m) children) /\
  modelRef (refs s1) = None /\
  mixerRef (refs s1) = None /\
  currentAnimationRef (refs s1)
    = match mixerRef (refs s) with
      | Some _ => None
      | None => currentAnimationRef (refs s)
      end /\
  w_actions (world s1)
    = match mixerRef (refs s) with
      | Some mx => alter stopped mx (w_actions (world s))
      | None => w_actions (world s)
      end /\
  w_loads (world s1)
    = w_loads (world s)
        ++ [mkLoadReq (w_nextObj (world s)) animationId (env_now env)
                      (env_now env) rd] /\
  w_disposed (world s1) = w_disposed (world s) /\
  (forall env' e, e <> EvUnmount ->
     w_disposed (world (step env' e s)) = w_disposed (world s)).
Proof.
  destruct s as [u r w]. destruct r, w, env.
  intros Hs Hm Ht Hl. cbn in Hs, Hm, Ht, Hl. subst. cbv zeta.
  destruct mixerRef0;
    repeat lazymatch goal with |- _ /\ _ => split end;
    first [ intros env' e He; apply (disposal_only_at_unmount env' e He)
          | rewrite list_elem_of_filter; tauto
          | vm_compute; reflexivity ].
Qed.

Lemma replacement_spec_witness :
  sceneRef (refs (fst (loadAnimationModel (quiet 2050)
                         (mkRender (Fin 1) false initialAnimations) "seated"
                         shown)))
    = Some (filter (fun c => c ≠ Model 0)
                   [Grid; AmbientLight; DirectionalLight; Model 0]).
Proof.
  refine (proj1 (replacement_spec (quiet 2050)
           (mkRender (Fin 1) false initialAnimations) "seated" shown
           [Grid; AmbientLight; DirectionalLight; Model 0] 0 _ _ _ _));
    reflexivity.
Defined.

(** ** Transport controls *)

(** C9.  For every speed [v] with 0 < v <= 2, [updateSpeed v] stores [v] as
    the speed, and when a mixer and a current clip action are attached the
    action's time scale becomes [v] at once while its time, its paused
    property and its scheduling stay as they were: the clip is neither
    reset nor restarted. *)
Theorem updateSpeed_spec (env : Env) (s : State) (q : Q) :
  (0 < q)%Q -> (q <= 2)%Q ->
  let s' := step env (EvSetSpeed (Fin q)) s in
  speed (ui s') = Fin q /\
  refs s' = refs s /\
  (forall m a x,
      mixerRef (refs s) = Some m ->
      currentAnimationRef (refs s) = Some a ->
      w_actions (world s) !! a = Some x ->
      w_actions (world s') !! a =
        Some (mkAction (act_paused x) (Fin q) (act_time x) (act_scheduled x))).
Proof.
  intros _ _. destruct s as [u r w]. unfold step, dispatch, updateSpeed.
  cbn. destruct (currentAnimationRef r) as [a|], (mixerRef r) as [m|]; cbn;
    repeat split; intros; try discriminate.
  simplify_eq. rewrite lookup_alter_eq.
  match goal with H : _ !! _ = Some _ |- _ => now rewrite H end.
Qed.

Lemma updateSpeed_spec_witness :
  speed (ui (step (quiet 1000) (EvSetSpeed (Fin (3 # 2))) shown))
    = Fin (3 # 2) /\
  w_actions (world (step (quiet 1000) (EvSetSpeed (Fin (3 # 2))) shown)) !! 0
    = Some (mkAction false (Fin (3 # 2)) (Fin 0) true).
Proof.
  destruct (updateSpeed_spec (quiet 1000) shown (3 # 2)) as (Hs & _ & Ha).
  - reflexivity.
  - discriminate.
  - split; [exact Hs|].
    apply (Ha 0 0 (mkAction false (Fin 1) (Fin 0) true)); reflexivity.
Defined.

(** C8, amended.  [togglePause] changes nothing, the log included, when no
    mixer or no clip action is attached.  With both attached, two calls
    bring back the paused flag, leave the refs alone, leave the action's
    time, time scale and scheduling as they were, and leave the action's
    [paused] property equal to that flag: the property is restored exactly
    when it agreed with the flag before. *)
Theorem togglePause_twice (env1 env2 : Env) (s : State) :
  ((mixerRef (refs s) = None \/ currentAnimationRef (refs s) = None) ->
   step env1 EvTogglePause s = s) /\
  (forall m a x,
      mixerRef (refs s) = Some m ->
      currentAnimationRef (refs s) = Some a ->
      w_actions (world s) !! a = Some x ->
      let s2 := step env2 EvTogglePause (step env1 EvTogglePause s) in
      isPaused (ui s2) = isPaused (ui s) /\
      refs s2 = refs s /\
      w_actions (world s2) !! a =
        Some (mkAction (isPaused (ui s)) (act_timeScale x) (act_time x)
                       (act_scheduled x))).
Proof.
  destruct s as [u r w]. unfold step, dispatch, togglePause. cbn. split.
  - intros [H|H]; rewrite H; [|destruct (mixerRef r)]; reflexivity.
  - intros m a x Hm Ha Hx. rewrite Hm, Ha. cbn.
    destruct (isPaused u) eqn:Hp; cbn; rewrite Hm, Ha; cbn;
      repeat split; rewrite ?Hp; try reflexivity.
    + now rewrite !lookup_alter_eq, Hx.
    + now rewrite !lookup_alter_eq, Hx.
Qed.

Lemma togglePause_twice_witness :
  step (quiet 1) EvTogglePause initialState = initialState /\
  w_actions (world (step (quiet 2) EvTogglePause
                      (step (quiet 1) EvTogglePause shown))) !! 0
    = Some (mkAction false (Fin 1) (Fin 0) true).
Proof.
  split.
  - apply (proj1 (togglePause_twice (quiet 1) (quiet 2) initialState)).
    left. reflexivity.
  - apply (proj2 (togglePause_twice (quiet 1) (quiet 2) shown) 0 0
             (mkAction false (Fin 1) (Fin 0) true)); reflexivity.
Defined.

(** C8 as stated fails in [justSelected], a state with a mixer attached in
    which the flag is already reset and the old clip is still paused: two
    toggles leave that clip unpaused. *)
Lemma double_toggle_not_restoring : ~ double_toggle_restores justSelected.
Proof.
  intros H. destruct H as [_ H]; [discriminate|].
  destruct (H 0 eq_refl) as [Hp _].
  assert (E : act_paused <$>
              (w_actions (world (step (quiet 0) EvTogglePause
                                   (step (quiet 0) EvTogglePause justSelected)))
                 !! 0) = Some false)
    by (vm_compute; reflexivity).
  assert (E' : act_paused <$> (w_actions (world justSelected) !! 0) = Some true)
    by (vm_compute; reflexivity).
  congruence.
Qed.

(** ** Selection of an unknown id *)

(** C10.  For an id that matches no descriptor, [handleAnimationChange]
    appends one log entry and returns: the selected animation, the loading
    flags, the paused flag, the descriptors, the refs, the timers and the
    loads in flight are as before, so no load is issued. *)
Theorem unknown_id_only_logs (env : Env) (s : State) (animationId : string) :
  (forall d, In d (animations (ui s)) -> anim_id d <> animationId) ->
  dispatch env (EvSelect animationId) s =
    (mkState (mkUI (log (ui s) ++ [LogNotFound animationId]) (speed (ui s))
                   (isPaused (ui s)) (isLoading (ui s)) (loadingProgress (ui s))
                   (selectedAnimation (ui s)) (animations (ui s)))
             (refs s) (world s),
     Normal tt).
Proof.
  intros H. unfold dispatch, handleAnimationChange. cbn.
  destruct (List.find _ _) as [d|] eqn:Hf; [|reflexivity].
  apply List.find_some in Hf as [Hin Heq].
  apply String.eqb_eq in Heq. now apply H in Hin.
Qed.

Lemma unknown_id_only_logs_witness :
  world (fst (dispatch (quiet 1000) (EvSelect "dancing") initialState))
    = world initialState.
Proof.
  rewrite (unknown_id_only_logs (quiet 1000) initialState "dancing").
  - reflexivity.
  - intros d Hd. cbn in Hd.
    repeat (destruct Hd as [<-|Hd]; [discriminate|]). destruct Hd.
Defined.

(** * Further properties *)

(** ** Running a handler on an open state *)

(** Opens a state and an environment into their fields. *)
Ltac open_state s :=
  destruct s as
    [u [mountR mixerR modelR sceneR clipR rendererR clockR frameR]
       [nextObj actions placements rafNext pending timers loads disposed
        canvas resize registered]].

Ltac open_env env :=
  destruct env as [clock delta tStop tLoad tMixer tClip tUpdate tDispose].

(** Runs a computation on an opened state down to its result. *)
Ltac run_eff :=
  autounfold with handlers prims engine;
  unfold bind, tryCatch, when, modUI, modRefs, modWorld, readRefs, readWorld,
    readRender, ret, throw;
  cbn.

(** Runs the first step of a computation and tidies the state it leaves. *)
Ltac eff_step :=
  rewrite run_bind;
  cbn [modUI modRefs modWorld readRefs readWorld readRender ret when
       fst snd ui refs world withChildren
       log speed isPaused isLoading loadingProgress selectedAnimation
       animations
       mountRef mixerRef modelRef sceneRef currentAnimationRef rendererRef
       clockRef animationFrameIdRef
       w_nextObj w_actions w_placements w_rafNext w_rafPending w_timers
       w_loads w_disposed w_canvas w_resize w_cleanup
       setNextObj setActions setPlacements setRaf setTimers setLoads
       setDisposed setCanvas setResize setCleanup].

(** Walks a computation like [stable_walk], keeping what is known of the
    state in which a read was made. *)
Ltac guarded_walk P leaf :=
  repeat first
    [ progress intros
    | progress unfold preserves
    | match goal with
      | |- stable _ (bind readRender _) => apply (preserves_bind_readRender P)
      | |- stable _ (bind readWorld _) => apply (preserves_bind_readWorld P)
      | |- stable _ (bind readRefs _) => apply (preserves_bind_readRefs P)
      | |- stable ?R (ret _) => apply (stable_ret R (preserves_refl P))
      | |- stable ?R throw => apply (stable_throw R (preserves_refl P))
      | |- stable ?R (bind _ _) => apply (stable_bind R (preserves_trans P))
      | |- stable ?R (tryCatch _ _) =>
          apply (stable_tryCatch R (preserves_trans P))
      | |- stable ?R (when _ _) => apply (stable_when R (preserves_refl P))
      | |- stable _ (match ?x with _ => _ end) => destruct x eqn:?
      | |- stable _ (let _ := _ in _) => cbv zeta
      | |- stable _ (modUI _) => solve [intros ?; leaf]
      | |- stable _ (modRefs _) => solve [intros ?; leaf]
      | |- stable _ (modWorld _) => solve [intros ?; leaf]
      end
    | progress autounfold with prims engine handlers ].

Lemma firstIssued_run :
  firstIssued = run [(quiet 0, EvMount); (quiet 100, EvTimer 0)] initialState.
Proof. vm_compute. reflexivity. Qed.

Lemma firstIssued_reachable : reachable firstIssued.
Proof. rewrite firstIssued_run. apply reachable_run, reach_init. Qed.

Lemma unmountedLoading_run :
  unmountedLoading = step (quiet 500) EvUnmount firstIssued.
Proof. vm_compute. reflexivity. Qed.

Lemma unmountedLoading_reachable : reachable unmountedLoading.
Proof.
  rewrite unmountedLoading_run. apply reach_step, firstIssued_reachable.
Qed.

Lemma earlySelection_run :
  earlySelection
  = run [(quiet 0, EvMount); (quiet 40, EvSelect "seated")] initialState.
Proof. vm_compute. reflexivity. Qed.

Lemma earlySelection_reachable : reachable earlySelection.
Proof. rewrite earlySelection_run. apply reachable_run, reach_init. Qed.

(** ** The log *)

Lemma logGrows_refl P s : logGrows P s s.
Proof. exists []. split; [now rewrite app_nil_r | constructor]. Qed.

Lemma logGrows_trans P s1 s2 s3 :
  logGrows P s1 s2 -> logGrows P s2 s3 -> logGrows P s1 s3.
Proof.
  intros (l1 & E1 & F1) (l2 & E2 & F2). exists (l1 ++ l2). split.
  - now rewrite E2, E1, app_assoc.
  - now apply Forall_app.
Qed.

Ltac logGrows_leaf tac :=
  unfold logGrows; cbn;
  first [ exists []; split; [now rewrite app_nil_r | constructor]
        | eexists [_]; split;
          [reflexivity | constructor; [tac | constructor]] ].

Lemma dispatch_logGrows env e :
  stable (logGrows (fun _ => True)) (dispatch env e).
Proof.
  destruct e; unfold dispatch;
  stable_walk (logGrows_refl (fun _ : LogMsg => True))
              (logGrows_trans (fun _ : LogMsg => True))
              ltac:(logGrows_leaf ltac:(exact I)).
Qed.

Lemma run_logGrows tr s : logGrows (fun _ => True) s (run tr s).
Proof.
  revert s. induction tr as [|[env e] tr IH]; intros s;
    [apply logGrows_refl|].
  cbn. eapply logGrows_trans; [apply dispatch_logGrows | apply IH].
Qed.

(** X1.  The diagnostic log is append-only: whatever events arrive, in
    whatever state and whichever engine calls throw, the log afterwards is
    the log before followed by new entries; no entry is ever removed,
    changed or reordered. *)
Theorem log_is_append_only (tr : list (Env * Event)) (s : State) :
  exists l, log (ui (run tr s)) = log (ui s) ++ l.
Proof. destruct (run_logGrows tr s) as (l & E & _). now exists l. Qed.

(** ** The descriptors over a run *)

Lemma sameEntries_refl l : sameEntries l l.
Proof. induction l; constructor; auto. Qed.

Lemma sameEntries_trans l1 l2 l3 :
  sameEntries l1 l2 -> sameEntries l2 l3 -> sameEntries l1 l3.
Proof.
  intros H. revert l3. induction H as [|d1 d2 l1 l2 (Hi & Hn & Hl) _ IH];
    intros l3 H3; inversion H3 as [|? d3 ? l3' (Hi' & Hn' & Hl') H3']; subst;
    constructor; [|now apply IH].
  repeat split; [congruence | congruence | auto].
Qed.

Lemma sameEntries_map (f : Descriptor -> Descriptor) l :
  (forall d, anim_id (f d) = anim_id d /\ anim_name (f d) = anim_name d /\
             (anim_loaded d = true -> anim_loaded (f d) = true)) ->
  sameEntries l (map f l).
Proof. intros Hf. induction l; cbn; constructor; auto. Qed.

Lemma entriesKept_refl s : entriesKept s s.
Proof. apply sameEntries_refl. Qed.

Lemma entriesKept_trans s1 s2 s3 :
  entriesKept s1 s2 -> entriesKept s2 s3 -> entriesKept s1 s3.
Proof. apply sameEntries_trans. Qed.

Ltac entriesKept_leaf :=
  unfold entriesKept; cbn;
  first [ apply sameEntries_refl
        | apply sameEntries_map; intros ?; cbn; repeat split; auto;
          destruct (String.eqb _ _); auto ].

Lemma dispatch_entriesKept env e : stable entriesKept (dispatch env e).
Proof.
  destruct e; unfold dispatch;
  stable_walk entriesKept_refl entriesKept_trans ltac:(entriesKept_leaf).
Qed.

Lemma run_entriesKept tr s : entriesKept s (run tr s).
Proof.
  revert s. induction tr as [|[env e] tr IH]; intros s;
    [apply entriesKept_refl|].
  cbn. eapply entriesKept_trans; [apply dispatch_entriesKept | apply IH].
Qed.

(** X2.  The three updaters of [setAnimations] only rewrite flags: after
    any events the list holds the same descriptors in the same order, with
    the ids and names they had, and a descriptor that was marked loaded is
    still marked loaded (the flag is never reset, not even by a later
    failure). *)
Theorem descriptors_are_kept (tr : list (Env * Event)) (s : State) :
  sameEntries (animations (ui s)) (animations (ui (run tr s))).
Proof. apply run_entriesKept. Qed.

Lemma catalogue_markActive t l :
  catalogue (map (markActive t) l) = catalogue l.
Proof. unfold catalogue. rewrite List.map_map. reflexivity. Qed.

Lemma catalogue_markLoadedActive t l :
  catalogue (map (markLoadedActive t) l) = catalogue l.
Proof. unfold catalogue. rewrite List.map_map. reflexivity. Qed.

Lemma catalogue_clearActive t l :
  catalogue (map (clearActive t) l) = catalogue l.
Proof. unfold catalogue. rewrite List.map_map. reflexivity. Qed.

Lemma catalogue_ids l : map fst (catalogue l) = map anim_id l.
Proof. unfold catalogue. rewrite List.map_map. reflexivity. Qed.

Lemma found_in_catalogue (rd : Render) (animationId : string)
    (d : Descriptor) :
  (exists s, selection_ok s /\ render_of s = rd) ->
  List.find (fun anim => String.eqb (anim_id anim) animationId)
            (r_animations rd) = Some d ->
  In animationId knownIds.
Proof.
  intros (s & (Hc & _) & <-) Hf. apply List.find_some in Hf as [Hin Heq].
  apply String.eqb_eq in Heq. subst animationId.
  unfold knownIds. rewrite <- catalogue_ids, <- Hc, catalogue_ids.
  now apply List.in_map.
Qed.

Ltac selection_leaf :=
  unfold selection_ok; cbn; intros [Hcat Hsel]; split;
  [ rewrite ?catalogue_markActive, ?catalogue_markLoadedActive,
      ?catalogue_clearActive; exact Hcat
  | first [ exact Hsel | eapply found_in_catalogue; eassumption ] ].

Lemma dispatch_selection env e : preserves selection_ok (dispatch env e).
Proof.
  destruct e; unfold dispatch, preserves;
    guarded_walk selection_ok ltac:(selection_leaf).
Qed.

(** The selected animation is always one of the descriptors: a selection
    of an unknown id returns before it is stored. *)
Lemma reachable_selection (s : State) : reachable s -> selection_ok s.
Proof.
  apply reachable_inv; [|apply dispatch_selection].
  split; [reflexivity | cbn; tauto].
Qed.

Lemma find_present {A} (f : A -> bool) (l : list A) (x : A) :
  In x l -> f x = true -> exists y, List.find f l = Some y.
Proof.
  intros Hin Hf. destruct (List.find f l) as [y|] eqn:E; [now exists y|].
  now rewrite (List.find_none f l E x Hin) in Hf.
Qed.

Lemma known_is_found (s : State) (animationId : string) :
  reachable s -> In animationId knownIds ->
  exists d, List.find (fun anim => String.eqb (anim_id anim) animationId)
                      (animations (ui s)) = Some d /\
            In d (animations (ui s)) /\ anim_id d = animationId.
Proof.
  intros Hr Hk. apply reachable_descriptors in Hr as [Hids _].
  unfold knownIds in Hk. rewrite <- Hids in Hk.
  apply List.in_map_iff in Hk as (d0 & E0 & Hin0).
  destruct (find_present (fun anim => String.eqb (anim_id anim) animationId)
              _ d0 Hin0) as (d & Hf).
  { now apply String.eqb_eq. }
  exists d. split; [exact Hf|]. apply List.find_some in Hf as [Hin Heq].
  split; [exact Hin | now apply String.eqb_eq].
Qed.

(** ** Set up or taken down *)












Lemma mount_leaves_scene env s :
  sceneRef (refs (step env EvMount s)) <> None.
Proof.
  open_state s; open_env env.
  destruct sceneR, mountR, mixerR, tUpdate; vm_compute; discriminate.
Qed.

Lemma mount_with_scene env s :
  sceneRef (refs s) <> None ->
  dispatch env EvMount s = (logged [LogMounted; LogSceneExists] s, Normal tt).
Proof.
  open_state s. cbn. intros H. destruct sceneR; [|contradiction].
  unfold logged, addLog, modUI. cbn. now rewrite <- app_assoc.
Qed.

(** X4.  The mount effect is idempotent: when it runs again after having
    run once (whatever the state it first ran in), it finds the scene and
    returns after two log entries; it creates no second scene, renderer,
    frame loop or timer. *)
Theorem mount_again_only_logs (env1 env2 : Env) (s : State) :
  let s1 := step env1 EvMount s in
  dispatch env2 EvMount s1
  = (logged [LogMounted; LogSceneExists] s1, Normal tt).
Proof. intros s1. apply mount_with_scene, mount_leaves_scene. Qed.

(** X5.  When the mount node is missing, the mount effect has already
    created the scene and the renderer when it notices: it logs the error
    and returns without attaching a canvas, without timer, frame loop or
    resize listener, and without returning a cleanup.  Nothing of the
    browser or the engine has changed, and an unmount that follows finds
    no cleanup to run, so the renderer and the scene stay in the refs. *)
Theorem mount_without_node (env : Env) (s : State) :
  mountRef (refs s) = false ->
  sceneRef (refs s) = None ->
  let s1 := step env EvMount s in
  snd (dispatch env EvMount s) = Normal tt /\
  sceneRef (refs s1) = Some [] /\
  rendererRef (refs s1) = true /\
  clockRef (refs s1) = clockRef (refs s) /\
  animationFrameIdRef (refs s1) = animationFrameIdRef (refs s) /\
  world s1 = world s /\
  log (ui s1) = log (ui s) ++ [LogMounted; LogSceneCreated; LogCameraCreated;
                               LogMountRefMissing] /\
  (w_cleanup (world s) = false ->
   forall env', step env' EvUnmount s1 = s1).
Proof.
  open_state s. cbn. intros -> ->. cbv zeta.
  repeat split; try reflexivity.
  - cbn. now rewrite <- !app_assoc.
  - cbn. intros ->. reflexivity.
Qed.

Lemma mount_without_node_witness :
  world (step (quiet 0) EvMount unattached) = world unattached.
Proof.
  refine (proj1 (proj2 (proj2 (proj2 (proj2 (proj2
            (mount_without_node (quiet 0) unattached _ _)))))));
    reflexivity.
Defined.

(** ** The children of the scene *)

Lemma filter_models (o : nat) (models : list nat) :
  filter (fun c => c ≠ Model o) (sceneFixtures ++ map Model models)
  = sceneFixtures ++ map Model (filter (fun m => m ≠ o) models).
Proof.
  unfold sceneFixtures. cbn [app].
  rewrite !filter_cons_True by discriminate. do 3 f_equal.
  induction models as [|m models IH]; [reflexivity|]. cbn [map].
  destruct (decide (m = o)) as [->|Hne].
  - rewrite filter_cons_False by (intros H; now apply H).
    rewrite filter_cons_False by (intros H; now apply H). exact IH.
  - rewrite (filter_cons_True (fun c => c ≠ Model o)) by congruence.
    rewrite (filter_cons_True (fun m => m ≠ o)) by exact Hne.
    cbn [map]. now rewrite IH.
Qed.

Lemma scene_remove_shape (o : nat) (children : list Object3D) :
  sceneShape children -> sceneShape (filter (fun c => c ≠ Model o) children).
Proof.
  intros (models & -> & Hnd). exists (filter (fun m => m ≠ o) models).
  split; [apply filter_models | now apply NoDup_filter].
Qed.

Lemma scene_add_shape (o : nat) (children : list Object3D) :
  sceneShape children ->
  sceneShape (filter (fun c => c ≠ Model o) children ++ [Model o]).
Proof.
  intros (models & -> & Hnd). exists (filter (fun m => m ≠ o) models ++ [o]).
  split.
  - rewrite filter_models, List.map_app, <- app_assoc. reflexivity.
  - apply NoDup_app. split; [now apply NoDup_filter|].
    split; [|apply NoDup_singleton].
    intros m Hm Ho. apply list_elem_of_filter in Hm as [Hne _].
    apply list_elem_of_singleton in Ho. contradiction.
Qed.

Ltac scene_leaf :=
  idtac;
  match goal with s : State |- _ =>
    destruct s as [u [mountR mixerR modelR theScene clipR rendererR clockR
                      frameR] w];
    unfold scene_ok; cbv delta [withChildren];
    destruct theScene as [kids|];
    cbn [modUI modRefs modWorld fst refs mountRef sceneRef];
    intros [Hmounted Hshape]; (split; [exact Hmounted|]);
    first
      [ exact Hshape
      | solve [intros ? [=]]
      | intros ? [= <-];
        first [ apply scene_add_shape | apply scene_remove_shape ];
        now apply Hshape ]
  end.

Lemma dispatch_scene_other env e :
  e <> EvMount -> preserves scene_ok (dispatch env e).
Proof.
  intros H. destruct e; try congruence; unfold dispatch;
    preserves_walk scene_ok ltac:(scene_leaf).
Qed.

Lemma mount_scene env s : scene_ok s -> scene_ok (step env EvMount s).
Proof.
  open_state s; open_env env. unfold scene_ok. cbn [refs mountRef sceneRef].
  intros [-> H]. destruct sceneR as [kids|].
  - split; [reflexivity|]. exact H.
  - split; [destruct mixerR, tUpdate; reflexivity|].
    intros children Hc. exists []. split; [|constructor].
    destruct mixerR, tUpdate; vm_compute in Hc; now injection Hc as <-.
Qed.

Lemma dispatch_scene env e : preserves scene_ok (dispatch env e).
Proof.
  intros s. destruct e;
    first [ apply mount_scene | apply dispatch_scene_other; discriminate ].
Qed.

Lemma reachable_scene (s : State) : reachable s -> scene_ok s.
Proof.
  apply reachable_inv; [|apply dispatch_scene].
  split; [reflexivity | discriminate].
Qed.

(** X6.  In every reachable state the scene, when there is one, holds the
    grid, the ambient light and the directional light that the mount
    effect attached, in that order, followed by loaded assets, none of
    them twice: no load or selection ever removes the grid or a light, and
    no asset is attached twice. *)
Theorem scene_keeps_its_shape (s : State) (children : list Object3D) :
  reachable s -> sceneRef (refs s) = Some children -> sceneShape children.
Proof. intros Hr. apply reachable_scene in Hr. apply Hr. Qed.

Lemma scene_keeps_its_shape_witness :
  sceneShape [Grid; AmbientLight; DirectionalLight; Model 0].
Proof.
  exact (scene_keeps_its_shape shown _ shown_reachable eq_refl).
Defined.




(** ** Callbacks after teardown *)

Ltac loadsWithin_contra :=
  exfalso;
  repeat match goal with
         | H : exists s, loadsWithin _ s /\ _ |- _ =>
             destruct H as (? & ((? & ? & ?) & ?) & <-)
         end;
  congruence.

Ltac loadsWithin_leaf :=
  unfold loadsWithin, torn_down; cbn; intros ((? & ? & Hnopending) & Hsub);
  split;
  [ rewrite ?Hnopending; cbn; auto
  | first [ exact Hsub
          | etransitivity; [apply sublist_delete | exact Hsub] ] ].

Ltac loadsWithin_walk L :=
  repeat first
    [ progress intros
    | progress unfold preserves
    | match goal with
      | |- stable _ (bind readRender _) =>
          apply (preserves_bind_readRender (loadsWithin L))
      | |- stable _ (bind readWorld _) =>
          apply (preserves_bind_readWorld (loadsWithin L))
      | |- stable _ (bind readRefs _) =>
          apply (preserves_bind_readRefs (loadsWithin L))
      | |- stable ?R (ret _) =>
          apply (stable_ret R (preserves_refl (loadsWithin L)))
      | |- stable ?R throw =>
          apply (stable_throw R (preserves_refl (loadsWithin L)))
      | |- stable ?R (bind _ _) =>
          apply (stable_bind R (preserves_trans (loadsWithin L)))
      | |- stable ?R (tryCatch _ _) =>
          apply (stable_tryCatch R (preserves_trans (loadsWithin L)))
      | |- stable ?R (when _ _) =>
          apply (stable_when R (preserves_refl (loadsWithin L)))
      | |- stable _ (match ?x with _ => _ end) =>
          destruct x eqn:?; try solve [loadsWithin_contra]
      | |- stable _ (let _ := _ in _) => cbv zeta
      | |- stable _ (modUI _) => solve [intros ?; loadsWithin_leaf]
      | |- stable _ (modRefs _) => solve [intros ?; loadsWithin_leaf]
      | |- stable _ (modWorld _) => solve [intros ?; loadsWithin_leaf]
      end
    | progress autounfold with prims engine handlers ].

Lemma dispatch_loadsWithin L env e :
  e <> EvMount -> preserves (loadsWithin L) (dispatch env e).
Proof.
  intros H. destruct e; try congruence; unfold dispatch, preserves;
    loadsWithin_walk L.
Qed.

Lemma run_loadsWithin L (tr : list (Env * Event)) (s : State) :
  no_mount tr -> loadsWithin L s -> loadsWithin L (run tr s).
Proof.
  revert s. induction tr as [|[env e] tr IH]; intros s Hn Hs; [exact Hs|].
  apply Forall_cons in Hn as [He Hn]. cbn. apply IH; [exact Hn|].
  now apply (dispatch_loadsWithin L env e He s).
Qed.

Lemma unmount_keeps_callbacks env :
  keeps (fun s => (w_timers (world s), w_loads (world s)))
        (dispatch env EvUnmount).
Proof.
  unfold dispatch.
  keeps_walk (fun s => (w_timers (world s), w_loads (world s))).
Qed.

(** X8.  The cleanup cancels neither the pending timers nor the loads in
    flight: they are all still there after the unmount and their callbacks
    will run.  But from then on, short of a new mount, no load is ever
    started: whatever events follow, the loads in flight are some of those
    that were in flight at the unmount (a timer that fires finds no scene
    and returns). *)
Theorem callbacks_outlive_teardown (env : Env) (s : State)
    (tr : list (Env * Event)) :
  reachable s ->
  w_cleanup (world s) = true ->
  no_mount tr ->
  let s1 := step env EvUnmount s in
  w_timers (world s1) = w_timers (world s) /\
  w_loads (world s1) = w_loads (world s) /\
  w_loads (world (run tr s1)) `sublist_of` w_loads (world s).
Proof.
  intros Hr Hc Hn s1.
  assert (Hk : (w_timers (world s1), w_loads (world s1))
               = (w_timers (world s), w_loads (world s)))
    by apply (unmount_keeps_callbacks env s).
  injection Hk as Ht Hl.
  repeat split; [exact Ht | exact Hl |].
  assert (Htd : torn_down s1).
  { unfold s1, step. rewrite unmount_runs_cleanup by exact Hc.
    apply cleanup_torn_down. apply reachable_raf_ok in Hr. exact Hr. }
  apply (run_loadsWithin (w_loads (world s)) tr s1 Hn).
  split; [exact Htd | now rewrite Hl].
Qed.

Lemma callbacks_outlive_teardown_witness :
  w_loads (world (run [(quiet 900, EvLoaded 0 sampleAsset)]
                      (step (quiet 500) EvUnmount firstIssued)))
    `sublist_of` w_loads (world firstIssued).
Proof.
  refine (proj2 (proj2 (callbacks_outlive_teardown (quiet 500) firstIssued
            [(quiet 900, EvLoaded 0 sampleAsset)]
            firstIssued_reachable eq_refl _))).
  repeat constructor. discriminate.
Defined.

(** X9.  A load that completes after the teardown finds no scene: it
    attaches nothing, creates no mixer and no clip action and leaves the
    descriptors as they are; it clears the loading flag and logs that the
    scene no longer exists.  It has, however, already stored the asset in
    [modelRef] (App.js line 197 comes before the test of line 200), so the
    ref that the cleanup reset is set again. *)
Theorem completion_after_teardown (env : Env) (s : State) (i : nat)
    (rq : LoadReq) (fbx : Asset) :
  reachable s ->
  sceneRef (refs s) = None ->
  w_loads (world s) !! i = Some rq ->
  let s' := step env (EvLoaded i fbx) s in
  snd (dispatch env (EvLoaded i fbx) s) = Normal tt /\
  modelRef (refs s') = Some (rq_obj rq) /\
  sceneRef (refs s') = None /\
  mixerRef (refs s') = mixerRef (refs s) /\
  currentAnimationRef (refs s') = currentAnimationRef (refs s) /\
  w_actions (world s') = w_actions (world s) /\
  w_loads (world s') = delete i (w_loads (world s)) /\
  animations (ui s') = animations (ui s) /\
  isLoading (ui s') = false /\
  exists l, log (ui s') = log (ui s) ++ l ++ [LogSceneGone].
Proof.
  intros Hr Hs Hl.
  assert (Ht : rq_loadingId rq = rq_loadId rq).
  { pose proof (reachable_tokens s Hr) as H. unfold tokens_ok in H.
    rewrite Forall_lookup in H. exact (H i rq Hl). }
  clear Hr. revert Hs Hl Ht.
  destruct rq as [obj animationId loadId loadingId rd].
  destruct fbx as [box clips]. open_state s. cbn.
  intros -> Hl ->. cbv zeta. unfold step, dispatch.
  rewrite run_bind. cbn [readWorld snd fst world w_loads]. rewrite Hl.
  unfold onLoad. cbn [rq_loadingId rq_loadId].
  rewrite Z.eqb_refl. cbn [negb].
  destruct (isEmpty box) eqn:He, (degenerate box) eqn:Hd; run_eff;
    rewrite ?He, ?Hd; cbn; repeat split;
    rewrite <- ?app_assoc;
    first [ now eexists [_; _] | now eexists [_; _; _] ].
Qed.

Lemma completion_after_teardown_witness :
  modelRef (refs (step (quiet 900) (EvLoaded 0 sampleAsset) unmountedLoading))
    = Some 0 /\
  sceneRef (refs (step (quiet 900) (EvLoaded 0 sampleAsset) unmountedLoading))
    = None.
Proof.
  destruct (completion_after_teardown (quiet 900) unmountedLoading 0
              (mkLoadReq 0 "startwalk" 100 100
                         (mkRender (Fin 1) false initialAnimations))
              sampleAsset unmountedLoading_reachable eq_refl eq_refl)
    as (_ & Hm & Hs & _).
  split; [exact Hm | exact Hs].
Defined.

(** ** The frame loop *)



(** ** Selecting an animation *)

(** X11.  A selection of one of the known animations, in a reachable
    state, finds its descriptor and touches no ref: the model on display
    and its clip stay until the timer of the selection fires.  If the
    descriptor is already active, one log entry is all that happens (no
    reload).  Otherwise the loading flag is set, the progress is reset to
    zero, the id is stored as the selected animation, the descriptor
    becomes the only active one, the paused flag is cleared, and one timer
    is registered, which holds the values of the render in which the
    selection was made. *)
Theorem selection_spec (env : Env) (s : State) (animationId : string) :
  reachable s -> In animationId knownIds ->
  exists d, In d (animations (ui s)) /\ anim_id d = animationId /\
    let s' := step env (EvSelect animationId) s in
    snd (dispatch env (EvSelect animationId) s) = Normal tt /\
    refs s' = refs s /\
    if anim_active d
    then s' = logged [LogAlreadyActive animationId] s
    else
      log (ui s') = log (ui s) ++ [LogSwitching animationId] /\
      speed (ui s') = speed (ui s) /\
      isPaused (ui s') = false /\
      isLoading (ui s') = true /\
      loadingProgress (ui s') = 0%Z /\
      selectedAnimation (ui s') = animationId /\
      animations (ui s') = map (markActive animationId) (animations (ui s)) /\
      world s' = setTimers (w_timers (world s)
                            ++ [mkTimer false animationId (render_of s)])
                           (world s).
Proof.
  intros Hr Hk.
  destruct (known_is_found s animationId Hr Hk) as (d & Hf & Hin & Hid).
  exists d. split; [exact Hin|]. split; [exact Hid|]. cbv zeta.
  unfold step, dispatch, handleAnimationChange.
  rewrite run_bind. cbn [readRender snd fst render_of r_animations].
  rewrite Hf. destruct (anim_active d).
  - repeat split.
  - open_state s. cbn. repeat split.
Qed.

Lemma selection_spec_witness :
  exists d, In d (animations (ui shown)) /\ anim_id d = "seated" /\
    let s' := step (quiet 2000) (EvSelect "seated") shown in
    snd (dispatch (quiet 2000) (EvSelect "seated") shown) = Normal tt /\
    refs s' = refs shown /\
    if anim_active d
    then s' = logged [LogAlreadyActive "seated"] shown
    else
      log (ui s') = log (ui shown) ++ [LogSwitching "seated"] /\
      speed (ui s') = speed (ui shown) /\
      isPaused (ui s') = false /\
      isLoading (ui s') = true /\
      loadingProgress (ui s') = 0%Z /\
      selectedAnimation (ui s') = "seated" /\
      animations (ui s') = map (markActive "seated") (animations (ui shown)) /\
      world s' = setTimers (w_timers (world shown)
                            ++ [mkTimer false "seated" (render_of shown)])
                           (world shown).
Proof.
  apply (selection_spec (quiet 2000) shown "seated").
  - apply shown_reachable.
  - cbn. tauto.
Defined.

Lemma timer_marks env i t s :
  w_timers (world s) !! i = Some t ->
  tm_initial t = true ->
  throws_stopAllAction env = false ->
  dispatch env (EvTimer i) s
  = (fst (dispatch env (EvTimer i) s), Normal tt) /\
  animations (ui (step env (EvTimer i) s))
    = map (markActive "startwalk") (animations (ui s)) /\
  selectedAnimation (ui (step env (EvTimer i) s)) = selectedAnimation (ui s).
Proof.
  open_state s; open_env env. destruct t as [initial animationId rd].
  cbn [world w_timers tm_initial throws_stopAllAction]. intros Hl -> ->.
  unfold step, dispatch. rewrite run_bind.
  cbn [readWorld snd fst world w_timers]. rewrite Hl.
  destruct sceneR, modelR, mixerR, tLoad; run_eff; repeat split.
Qed.

(** X12.  When the timer of the mount effect fires (and [stopAllAction]
    does not throw), "startwalk" becomes the only active descriptor and
    the indicator reads "Walking", whatever has been selected in the
    meantime; the selected animation, which the dropdown shows, is left as
    it is.  A selection made before that timer fires is thus overridden in
    the indicator but not in the dropdown. *)
Theorem mount_timer_marks_startwalk (env : Env) (s : State) (i : nat)
    (t : Timer) :
  reachable s ->
  w_timers (world s) !! i = Some t ->
  tm_initial t = true ->
  throws_stopAllAction env = false ->
  let s' := step env (EvTimer i) s in
  animations (ui s') = map (markActive "startwalk") (animations (ui s)) /\
  onlyActive "startwalk" (animations (ui s')) /\
  currentAnimationText (animations (ui s')) = "Walking" /\
  selectedAnimation (ui s') = selectedAnimation (ui s).
Proof.
  intros Hr Hl Hi Ht s'.
  destruct (timer_marks env i t s Hl Hi Ht) as (_ & Ha & Hs).
  fold s' in Ha, Hs. rewrite Ha.
  repeat split; [| |exact Hs].
  - now apply (onlyActive_mark markActive).
  - apply reachable_selection in Hr as [Hcat _].
    destruct (animations (ui s)) as [|d l]; [discriminate|].
    injection Hcat as Hid Hname _.
    unfold currentAnimationText.
    cbn [map List.find markActive anim_active anim_id]. rewrite Hid.
    cbn. now rewrite Hname.
Qed.

Lemma mount_timer_marks_startwalk_witness :
  currentAnimationText
    (animations (ui (step (quiet 100) (EvTimer 0) earlySelection)))
    = "Walking" /\
  selectedAnimation (ui (step (quiet 100) (EvTimer 0) earlySelection))
    = "seated".
Proof.
  destruct (mount_timer_marks_startwalk (quiet 100) earlySelection 0
              (mkTimer true "startwalk"
                       (mkRender (Fin 1) false initialAnimations))
              earlySelection_reachable eq_refl eq_refl eq_refl)
    as (_ & _ & Hc & Hs).
  split; [exact Hc | exact Hs].
Defined.

(** ** Completion of a load *)

(** What [setupAnimation] leaves when no engine call throws. *)
Lemma setupAnimation_yields (env : Env) (rd : Render) (animationId : string)
    (obj : nat) (s : State) :
  throws_newMixer env = false ->
  throws_clipAction env = false ->
  exists acts,
    acts !! obj = Some (mkAction (r_isPaused rd) (r_speed rd) (Fin 0) true) /\
    setupAnimation env rd animationId obj s
    = (mkState
         (mkUI (log (ui s)
                ++ (if negb (r_isPaused rd)
                       && JSNum.strict_eq (r_speed rd) (Fin 0)
                    then [LogForcingStart] else [])
                ++ [LogStarted (r_speed rd)])
               (speed (ui s)) (isPaused (ui s)) (isLoading (ui s))
               (loadingProgress (ui s)) (selectedAnimation (ui s))
               (map (markLoadedActive animationId) (animations (ui s))))
         (mkRefs (mountRef (refs s)) (Some obj) (modelRef (refs s))
                 (sceneRef (refs s)) (Some obj) (rendererRef (refs s))
                 (clockRef (refs s)) (animationFrameIdRef (refs s)))
         (setActions acts (world s)),
       Normal tt).
Proof.
  open_state s; open_env env. destruct rd as [v paused l].
  cbn [throws_newMixer throws_clipAction]. intros -> ->.
  unfold setupAnimation.
  autounfold with prims engine.
  unfold bind, tryCatch, when, modUI, modRefs, modWorld, readRefs, readWorld,
    readRender, ret, throw.
  cbn [r_isPaused r_speed throws_newMixer throws_clipAction].
  cbv beta iota.
  cbn [fst snd ui refs world w_actions setActions].
  destruct paused; cbv beta iota;
    cbn [fst snd ui refs world w_actions setActions];
    rewrite !lookup_alter_eq, lookup_insert_eq; cbn;
    unfold isRunning; cbn;
    destruct (JSNum.strict_eq v (Fin 0)) eqn:Hv; cbn;
    rewrite <- ?app_assoc; cbn;
    (eexists; split; [|reflexivity]);
    rewrite ?lookup_alter_eq, ?lookup_insert_eq; reflexivity.
Qed.

(** X13.  A load that completes while there is a scene, for an asset with
    at least one clip and with no engine call throwing: the asset becomes
    the model, is attached last in the scene (after being taken from where
    it might have been), gets the placement computed from its box, a mixer
    and a clip action are created for it and stored in the refs, the
    action is scheduled at time zero with the speed and the paused flag
    that the load captured, the descriptor of the load is marked loaded
    and becomes the only active one, and the loading flag is cleared. *)
Theorem successful_load_spec (env : Env) (rq : LoadReq) (fbx : Asset)
    (s : State) (children : list Object3D) :
  rq_loadingId rq = rq_loadId rq ->
  sceneRef (refs s) = Some children ->
  0 < fbx_animations fbx ->
  throws_newMixer env = false ->
  throws_clipAction env = false ->
  let s' := fst (onLoad env rq fbx s) in
  snd (onLoad env rq fbx s) = Normal tt /\
  modelRef (refs s') = Some (rq_obj rq) /\
  mixerRef (refs s') = Some (rq_obj rq) /\
  currentAnimationRef (refs s') = Some (rq_obj rq) /\
  sceneRef (refs s')
    = Some (filter (fun c => c ≠ Model (rq_obj rq)) children
            ++ [Model (rq_obj rq)]) /\
  w_actions (world s') !! rq_obj rq
    = Some (mkAction (r_isPaused (rq_render rq)) (r_speed (rq_render rq))
                     (Fin 0) true) /\
  w_placements (world s') !! rq_obj rq
    = Some (autoScaleAndCenter (fbx_box fbx)) /\
  animations (ui s')
    = map (markLoadedActive (rq_animationId rq)) (animations (ui s)) /\
  isLoading (ui s') = false.
Proof.
  destruct rq as [obj animationId loadId loadingId rd].
  destruct fbx as [box clips]. open_state s.
  cbn [rq_loadingId rq_loadId refs sceneRef fbx_animations].
  intros -> -> Hc Hm Ht. cbv zeta. unfold onLoad.
  cbn [rq_loadingId rq_loadId rq_obj rq_render rq_animationId fbx_box
       fbx_animations].
  rewrite Z.eqb_refl. cbn [negb]. cbv zeta.
  destruct clips as [|clips]; [lia|]. cbn [Nat.ltb Nat.leb].
  autounfold with prims.
  destruct (isEmpty box), (degenerate box); repeat eff_step;
    rewrite run_tryCatch;
    match goal with
    | |- context [setupAnimation env rd animationId obj ?s0] =>
        destruct (setupAnimation_yields env rd animationId obj s0 Hm Ht)
          as (acts & Ha & ->)
    end;
    cbn; repeat split; try exact Ha; apply lookup_insert_eq.
Qed.

Lemma successful_load_spec_witness :
  mixerRef (refs (fst (onLoad (quiet 900) sampleRequest sampleAsset shown)))
    = Some 7.
Proof.
  refine (proj1 (proj2 (proj2 (successful_load_spec (quiet 900)
            sampleRequest sampleAsset shown
            [Grid; AmbientLight; DirectionalLight; Model 0] _ _ _ _ _))));
    first [reflexivity | cbn; lia].
Defined.

(** X14.  The "forcing start" branch of App.js lines 223-227 is taken
    exactly when the load captured a speed of zero and a cleared paused
    flag: only then is the fresh action not running after [play()].  The
    second [play()] changes nothing: with or without it the action ends
    scheduled, at time zero, at the captured speed and with the captured
    paused flag. *)
Theorem forced_start_only_at_zero_speed (env : Env) (rd : Render)
    (animationId : string) (obj : nat) (s : State) :
  throws_newMixer env = false ->
  throws_clipAction env = false ->
  let s' := fst (setupAnimation env rd animationId obj s) in
  log (ui s')
    = log (ui s)
      ++ (if negb (r_isPaused rd) && JSNum.strict_eq (r_speed rd) (Fin 0)
          then [LogForcingStart] else [])
      ++ [LogStarted (r_speed rd)] /\
  w_actions (world s') !! obj
    = Some (mkAction (r_isPaused rd) (r_speed rd) (Fin 0) true).
Proof.
  intros Hm Hc s'.
  destruct (setupAnimation_yields env rd animationId obj s Hm Hc)
    as (acts & Ha & E).
  unfold s'. rewrite E. split; [reflexivity | exact Ha].
Qed.

Lemma forced_start_only_at_zero_speed_witness :
  log (ui (fst (setupAnimation (quiet 900)
                  (mkRender (Fin 0) false initialAnimations) "seated" 7
                  shown)))
    = log (ui shown) ++ [LogForcingStart] ++ [LogStarted (Fin 0)].
Proof.
  refine (proj1 (forced_start_only_at_zero_speed (quiet 900)
            (mkRender (Fin 0) false initialAnimations) "seated" 7 shown
            _ _));
    reflexivity.
Defined.

(** X15.  An asset without animation clips is shown as a static model:
    it becomes the model and is attached to the scene, no mixer and no
    clip action are created (the mixer and clip refs and the actions stay
    as the load found them), the loading flag is cleared, and the
    descriptors are left as they are, so that the descriptor is not marked
    loaded. *)
Theorem asset_without_clips (env : Env) (rq : LoadReq) (fbx : Asset)
    (s : State) (children : list Object3D) :
  rq_loadingId rq = rq_loadId rq ->
  sceneRef (refs s) = Some children ->
  fbx_animations fbx = 0 ->
  let s' := fst (onLoad env rq fbx s) in
  modelRef (refs s') = Some (rq_obj rq) /\
  sceneRef (refs s')
    = Some (filter (fun c => c ≠ Model (rq_obj rq)) children
            ++ [Model (rq_obj rq)]) /\
  mixerRef (refs s') = mixerRef (refs s) /\
  currentAnimationRef (refs s') = currentAnimationRef (refs s) /\
  w_actions (world s') = w_actions (world s) /\
  animations (ui s') = animations (ui s) /\
  isLoading (ui s') = false /\
  exists l, log (ui s') = log (ui s) ++ l ++ [LogNoAnimations].
Proof.
  destruct rq as [obj animationId loadId loadingId rd].
  destruct fbx as [box clips]. open_state s. cbn.
  intros -> -> ->. cbv zeta. unfold onLoad. cbn [rq_loadingId rq_loadId].
  rewrite Z.eqb_refl. cbn [negb].
  destruct (isEmpty box) eqn:He, (degenerate box) eqn:Hd; run_eff;
    rewrite ?He, ?Hd; cbn; repeat split;
    rewrite <- ?app_assoc;
    first [ now eexists [_; _] | now eexists [_; _; _] ].
Qed.

Lemma asset_without_clips_witness :
  mixerRef (refs (fst (onLoad (quiet 900) sampleRequest staticAsset shown)))
    = mixerRef (refs shown).
Proof.
  refine (proj1 (proj2 (proj2 (asset_without_clips (quiet 900)
            sampleRequest staticAsset shown
            [Grid; AmbientLight; DirectionalLight; Model 0] _ _ _))));
    reflexivity.
Defined.

(** X16.  When the construction of the mixer or [clipAction] throws, the
    exception is caught inside the load callback: the asset stays attached
    as a static model, the loading flag is cleared, the descriptors, the
    clip ref and the actions are as the load found them, and the error is
    logged.  The mixer ref is left as it was if the constructor threw, and
    holds the new mixer (which has no action) if [clipAction] threw. *)
Theorem setup_failure_leaves_static_model (env : Env) (rq : LoadReq)
    (fbx : Asset) (s : State) (children : list Object3D) :
  rq_loadingId rq = rq_loadId rq ->
  sceneRef (refs s) = Some children ->
  0 < fbx_animations fbx ->
  throws_newMixer env = true \/ throws_clipAction env = true ->
  let s' := fst (onLoad env rq fbx s) in
  snd (onLoad env rq fbx s) = Normal tt /\
  modelRef (refs s') = Some (rq_obj rq) /\
  sceneRef (refs s')
    = Some (filter (fun c => c ≠ Model (rq_obj rq)) children
            ++ [Model (rq_obj rq)]) /\
  mixerRef (refs s')
    = (if throws_newMixer env then mixerRef (refs s)
       else Some (rq_obj rq)) /\
  currentAnimationRef (refs s') = currentAnimationRef (refs s) /\
  w_actions (world s') = w_actions (world s) /\
  animations (ui s') = animations (ui s) /\
  isLoading (ui s') = false /\
  exists l, log (ui s') = log (ui s) ++ l ++ [LogSetupError].
Proof.
  destruct rq as [obj animationId loadId loadingId rd].
  destruct fbx as [box clips]. open_state s; open_env env. cbn.
  intros -> -> Hc Ht. cbv zeta. unfold onLoad. cbn [rq_loadingId rq_loadId].
  rewrite Z.eqb_refl. cbn [negb].
  destruct clips as [|clips]; [lia|].
  destruct tMixer; [|destruct Ht as [Ht|Ht]; [discriminate|subst tClip]];
    destruct (isEmpty box) eqn:He, (degenerate box) eqn:Hd; run_eff;
    rewrite ?He, ?Hd; cbn; repeat split;
    rewrite <- ?app_assoc;
    first [ now eexists [_; _; _] | now eexists [_; _; _; _] ].
Qed.

Lemma setup_failure_leaves_static_model_witness :
  isLoading (ui (fst (onLoad clipActionThrows sampleRequest sampleAsset
                             shown))) = false.
Proof.
  refine (proj1 (proj2 (proj2 (proj2 (proj2 (proj2 (proj2 (proj2
            (setup_failure_leaves_static_model clipActionThrows
               sampleRequest sampleAsset shown
               [Grid; AmbientLight; DirectionalLight; Model 0]
               _ _ _ _)))))))));
    first [reflexivity | cbn; lia | right; reflexivity].
Defined.

(** X17.  When the loader throws while the load is issued (and
    [stopAllAction] does not), the exception is caught inside
    [loadAnimationModel]: no load is in flight because of it and the
    loading flag is cleared.  The model that was on display has already
    been taken off the scene and the model and mixer refs cleared; and,
    unlike the error callback of a failed fetch, this path leaves the
    descriptors alone, so the one that the selection marked active stays
    active. *)
Theorem load_exception_is_caught (env : Env) (rd : Render)
    (animationId : string) (s : State) (children : list Object3D) :
  sceneRef (refs s) = Some children ->
  throws_stopAllAction env = false ->
  throws_load env = true ->
  let s1 := fst (loadAnimationModel env rd animationId s) in
  snd (loadAnimationModel env rd animationId s) = Normal tt /\
  w_loads (world s1) = w_loads (world s) /\
  isLoading (ui s1) = false /\
  animations (ui s1) = animations (ui s) /\
  modelRef (refs s1) = None /\
  mixerRef (refs s1) = None /\
  sceneRef (refs s1)
    = Some (match modelRef (refs s) with
            | Some m => filter (fun c => c ≠ Model m) children
            | None => children
            end) /\
  log (ui s1) = log (ui s) ++ [LogLoadingModel animationId;
                               LogLoadException animationId].
Proof.
  open_state s; open_env env. cbn. intros -> -> ->. cbv zeta.
  destruct modelR, mixerR; repeat split; try (vm_compute; reflexivity);
    unfold loadAnimationModel; autounfold with prims engine;
    unfold bind, tryCatch, modUI, modRefs, modWorld, readRefs, ret, throw;
    cbn; now rewrite <- !app_assoc.
Qed.

Lemma load_exception_is_caught_witness :
  isLoading (ui (fst (loadAnimationModel loaderThrows
                        (mkRender (Fin 1) false initialAnimations) "seated"
                        shown))) = false.
Proof.
  refine (proj1 (proj2 (proj2 (load_exception_is_caught loaderThrows
            (mkRender (Fin 1) false initialAnimations) "seated" shown
            [Grid; AmbientLight; DirectionalLight; Model 0] _ _ _))));
    reflexivity.
Defined.

(** X18.  A progress event of a load in flight, superseded or not, only
    reports: when the length is computable it stores the percentage and
    logs it if it is a multiple of ten, and otherwise it does nothing; in
    no case does it touch the refs, the scene, the descriptors, the
    loading flag or the request, which stays in flight.  A progress event
    for a request that is no longer in flight changes nothing. *)
Theorem progress_only_reports (env : Env) (s : State) (i : nat)
    (lengthComputable : bool) (percent : Z) :
  dispatch env (EvProgress i lengthComputable percent) s =
  (match w_loads (world s) !! i with
   | Some rq =>
       if lengthComputable then
         logged (if (Z.rem percent 10 =? 0)%Z
                 then [LogProgress (rq_animationId rq) percent] else [])
                (withProgress percent s)
       else s
   | None => s
   end, Normal tt).
Proof.
  open_state s. unfold dispatch, onProgress. cbn.
  destruct (loads !! i) as [rq|]; [|reflexivity].
  destruct lengthComputable; [|reflexivity].
  unfold logged, withProgress. cbn.
  destruct (Z.rem percent 10 =? 0)%Z; cbn; [reflexivity|].
  now rewrite app_nil_r.
Qed.

(** ** Exceptions that leave a handler *)

Lemma dispatch_nothrow env e :
  (forall i, e <> EvTimer i) -> nothrow (dispatch env e).
Proof.
  intros H. destruct e; try (exfalso; eapply H; reflexivity);
    unfold dispatch; nothrow_walk;
    first [apply handleAnimationChange_nothrow | apply onLoad_nothrow].
Qed.

(** X19.  The only exception that leaves a handler of the component is
    one thrown by [mixer.stopAllAction()] in [loadAnimationModel], which
    calls it outside of any [try]: an event ends with an uncaught
    exception exactly when it is a pending timer firing while there is a
    scene and a mixer and [stopAllAction] throws.  Every other engine
    failure (loader, mixer construction, [clipAction], [update],
    [dispose], and [stopAllAction] in the cleanup) is caught. *)
Theorem only_stopAllAction_escapes (env : Env) (e : Event) (s : State) :
  snd (dispatch env e s) = Thrown <->
  exists i t m,
    e = EvTimer i /\ w_timers (world s) !! i = Some t /\
    sceneRef (refs s) <> None /\ mixerRef (refs s) = Some m /\
    throws_stopAllAction env = true.
Proof.
  split.
  - intros Ht.
    assert (He : exists i, e = EvTimer i).
    { destruct e; try (now eexists); exfalso;
        match type of Ht with
        | snd (dispatch env ?e0 s) = Thrown =>
            destruct (dispatch_nothrow env e0 ltac:(intros ?; discriminate) s)
              as [a Ha]
        end; congruence. }
    destruct He as [i ->]. revert Ht.
    open_state s; open_env env. unfold dispatch.
    rewrite run_bind. cbn [readWorld snd fst world w_timers].
    destruct (timers !! i) as [t|] eqn:Hl; [|discriminate].
    destruct t as [initial animationId rd].
    destruct sceneR, mixerR as [m|], tStop;
      try (exists i, (mkTimer initial animationId rd), m; cbn;
           repeat split; auto; discriminate);
      destruct modelR, tLoad, initial; run_eff; discriminate.
  - intros (i & t & m & -> & Hl & Hs & Hm & Ht). revert Hl Hs Hm Ht.
    open_state s; open_env env.
    cbn [refs world sceneRef mixerRef w_timers throws_stopAllAction].
    intros Hl Hs -> ->. unfold dispatch.
    rewrite run_bind. cbn [readWorld snd fst world w_timers]. rewrite Hl.
    destruct sceneR; [|contradiction].
    destruct t as [initial animationId rd].
    destruct modelR; reflexivity.
Qed.

(** ** The keyboard *)

(** X20.  The [keydown] listener ignores every key but the space key (by
    [code] or by [key]).  On the space key it does what the pause button
    does and then logs one entry that names the action by the paused flag
    as it was before the toggle.  It logs that entry even when no mixer or
    no clip is attached and nothing was toggled. *)
Theorem space_key_toggles_then_logs (env : Env) (s : State)
    (code key : string) :
  (code <> "Space" -> key <> " " ->
   keydownListener (render_of s) code key s = (s, Normal tt)) /\
  (code = "Space" \/ key = " " ->
   keydownListener (render_of s) code key s = dispatch env EvSpaceKey s) /\
  dispatch env EvSpaceKey s
    = (logged [LogKeyboardShortcut (isPaused (ui s))]
              (step env EvTogglePause s), Normal tt) /\
  (mixerRef (refs s) = None \/ currentAnimationRef (refs s) = None ->
   step env EvSpaceKey s = logged [LogKeyboardShortcut (isPaused (ui s))] s).
Proof.
  assert (E : dispatch env EvSpaceKey s
              = (logged [LogKeyboardShortcut (isPaused (ui s))]
                        (step env EvTogglePause s), Normal tt)).
  { open_state s. unfold step, dispatch, handleKeyPress, togglePause. cbn.
    destruct mixerR, clipR; try reflexivity.
    destruct (isPaused u); reflexivity. }
  repeat split.
  - intros Hc Hk. unfold keydownListener.
    apply String.eqb_neq in Hc, Hk. now rewrite Hc, Hk.
  - intros H. unfold keydownListener.
    assert (Ht : String.eqb code "Space" || String.eqb key " " = true).
    { destruct H as [-> | ->]; [reflexivity|].
      rewrite String.eqb_refl. apply orb_true_r. }
    rewrite Ht. reflexivity.
  - exact E.
  - intros H. unfold step at 1. rewrite E. cbn [fst]. f_equal.
    open_state s. cbn in H. unfold step, dispatch, togglePause. cbn.
    destruct H as [-> | ->]; [reflexivity|]. now destruct mixerR.
Qed.

(** ** What is displayed *)

Lemma options_of_catalogue l :
  animationOptions l = map (fun p => mkOption (fst p) (snd p)) (catalogue l).
Proof. unfold animationOptions, catalogue. now rewrite List.map_map. Qed.

(** X21.  In every reachable state the trigger of the dropdown shows the
    name of the selected animation, never the placeholder: the value it is
    given is always the id of one of the options built from the
    descriptors, and its label is the name that the source gives to that
    id. *)
Theorem trigger_names_selection (s : State) :
  reachable s ->
  exists d, In d initialAnimations /\
            anim_id d = selectedAnimation (ui s) /\
            Dropdown.triggerText (animationOptions (animations (ui s)))
                                 (selectedAnimation (ui s)) "Select Animation"
              = anim_name d.
Proof.
  intros Hr. apply reachable_selection in Hr as [Hcat Hsel].
  rewrite options_of_catalogue, Hcat.
  cbn in Hsel.
  destruct Hsel as [<-|[<-|[<-|[<-|[<-|[]]]]]];
    [> exists (mkDescriptor "startwalk" "Walking" false false)
     | exists (mkDescriptor "seated" "Sitting" false false)
     | exists (mkDescriptor "shakehand" "Shake Hand" false false)
     | exists (mkDescriptor "drinking" "Drinking" false false)
     | exists (mkDescriptor "jumping" "Jumping" false false) ];
    (split; [cbn; tauto | split; reflexivity]).
Qed.

Lemma trigger_names_selection_witness :
  exists d, In d initialAnimations /\
            anim_id d = selectedAnimation (ui superseded) /\
            Dropdown.triggerText
              (animationOptions (animations (ui superseded)))
              (selectedAnimation (ui superseded)) "Select Animation"
              = anim_name d.
Proof.
  exact (trigger_names_selection superseded superseded_reachable).
Defined.

Lemma find_is_first {A} (f : A -> bool) (l : list A) :
  List.find f l = head (List.filter f l).
Proof.
  induction l as [|x l IH]; [reflexivity|]. cbn. now destruct (f x).
Qed.

Lemma catalogue_names_nonempty (d : Descriptor) (l : list Descriptor) :
  catalogue l = catalogue initialAnimations -> In d l -> anim_name d <> "".
Proof.
  intros Hc Hin.
  assert (H : In (anim_id d, anim_name d) (catalogue initialAnimations)).
  { rewrite <- Hc. unfold catalogue.
    apply (List.in_map (fun d => (anim_id d, anim_name d))), Hin. }
  cbn in H.
  repeat (destruct H as [H|H]; [injection H as _ <-; discriminate|]).
  destruct H.
Qed.

(** X22.  In every reachable state the current-animation indicator reads
    "No animation" when no descriptor is active, and otherwise the name of
    the active descriptor, which is the only one and whose name is not
    empty (so the fallback text is not shown in its place). *)
Theorem indicator_names_active (s : State) :
  reachable s ->
  match List.filter anim_active (animations (ui s)) with
  | [] => currentAnimationText (animations (ui s)) = "No animation"
  | d :: others =>
      others = [] /\ In d (animations (ui s)) /\
      currentAnimationText (animations (ui s)) = anim_name d /\
      anim_name d <> ""
  end.
Proof.
  intros Hr. pose proof (reachable_selection s Hr) as [Hcat _].
  pose proof (reachable_descriptors s Hr) as [_ Hcount].
  unfold currentAnimationText. rewrite find_is_first.
  unfold activeCount in Hcount.
  destruct (List.filter anim_active (animations (ui s))) as [|d others] eqn:E;
    [reflexivity|].
  assert (Hin : In d (animations (ui s))).
  { apply (List.filter_In anim_active d (animations (ui s))).
    rewrite E. now left. }
  pose proof (catalogue_names_nonempty d _ Hcat Hin) as Hne.
  repeat split; auto.
  - destruct others; [reflexivity | cbn in Hcount; lia].
  - cbn. destruct (anim_name d); [contradiction | reflexivity].
Qed.

Lemma indicator_names_active_witness :
  match List.filter anim_active (animations (ui shown)) with
  | [] => currentAnimationText (animations (ui shown)) = "No animation"
  | d :: others =>
      others = [] /\ In d (animations (ui shown)) /\
      currentAnimationText (animations (ui shown)) = anim_name d /\
      anim_name d <> ""
  end.
Proof. exact (indicator_names_active shown shown_reachable). Defined.

Lemma logGrows_allFound s s' :
  logGrows notNotFound s s' -> allFound s -> allFound s'.
Proof.
  intros (l & E & F) H animationId. rewrite E, List.in_app_iff.
  intros [Hin|Hin]; [exact (H animationId Hin)|].
  rewrite Forall_forall in F. apply list_elem_of_In in Hin.
  exact (F _ Hin animationId eq_refl).
Qed.

Ltac notNotFound_walk :=
  stable_walk (logGrows_refl notNotFound) (logGrows_trans notNotFound)
              ltac:(logGrows_leaf ltac:(intros ?; discriminate)).

Lemma dispatch_notNotFound env e :
  (forall animationId, e <> EvSelect animationId) ->
  stable (logGrows notNotFound) (dispatch env e).
Proof.
  intros H. destruct e; try (exfalso; eapply H; reflexivity);
    unfold dispatch; notNotFound_walk.
Qed.

Lemma found_notNotFound rd animationId :
  List.find (fun anim => String.eqb (anim_id anim) animationId)
            (r_animations rd) <> None ->
  stable (logGrows notNotFound) (handleAnimationChange rd animationId).
Proof.
  intros H. unfold handleAnimationChange.
  destruct (List.find _ _) as [d|]; [|contradiction]. notNotFound_walk.
Qed.

(** The value of an option of the menu is the id of a descriptor of the
    render that built the menu. *)
Lemma option_is_found (l : list Descriptor) (k : nat) (o : DropdownOption) :
  animationOptions l !! k = Some o ->
  List.find (fun anim => String.eqb (anim_id anim) (opt_value o)) l <> None.
Proof.
  unfold animationOptions. rewrite list_lookup_fmap.
  destruct (l !! k) as [d|] eqn:E; [|discriminate].
  intros [= <-]. cbn.
  apply list_elem_of_lookup_2, list_elem_of_In in E.
  destruct (find_present (fun anim => String.eqb (anim_id anim) (anim_id d))
              l d E (String.eqb_refl _)) as [y ->].
  discriminate.
Qed.

Lemma page_step_allFound env g p :
  fromInterface g ->
  allFound (viewer p) -> allFound (viewer (page_step env g p)).
Proof.
  intros Hg. destruct g as [|k|inside|e]; cbn; auto.
  - destruct (isOpen p); [|auto].
    destruct (animationOptions _ !! k) as [o|] eqn:E; [|auto].
    intros H. unfold handleOptionClick.
    pose proof (found_notNotFound (render_of (viewer p)) (opt_value o)
                  (option_is_found _ _ _ E) (viewer p)) as Hl.
    destruct (handleAnimationChange _ _ _) as [s' [a|]]; cbn in *;
      now apply (logGrows_allFound (viewer p)).
  - apply logGrows_allFound, dispatch_notNotFound.
    intros animationId ->. exact Hg.
Qed.

(** X23.  Through the interface the "not found" branch of
    [handleAnimationChange] is never taken: the menu of the dropdown is
    built from the descriptors of the render whose handler it calls, so
    whatever the user clicks (the trigger, an entry of the open menu,
    elsewhere) and whatever else happens in between, no "Animation not
    found" entry ever appears in the log. *)
Theorem menu_selects_known_ids (tr : list (Env * Gesture)) :
  Forall (fun eg => fromInterface (snd eg)) tr ->
  allFound (viewer (page_run tr initialPage)).
Proof.
  assert (H : forall p, allFound (viewer p) ->
                Forall (fun eg => fromInterface (snd eg)) tr ->
                allFound (viewer (page_run tr p))).
  { induction tr as [|[env g] tr IH]; intros p Hp Hf; [exact Hp|].
    apply Forall_cons in Hf as [Hg Hf]. cbn.
    apply IH; [|exact Hf]. now apply page_step_allFound. }
  intros Hf. apply H; [|exact Hf]. intros animationId [].
Qed.

Lemma menu_selects_known_ids_witness :
  allFound (viewer (page_run sampleGestures initialPage)).
Proof.
  apply (menu_selects_known_ids sampleGestures).
  repeat constructor.
Defined.

(** ** More on the normalisation *)

Section MoreNormalisation.

Local Open Scope Q_scope.


(** X25.  An asset whose bounding box is empty (an asset without
    geometry) fails the test of line 166: it gets the default scale 0.1
    and is left at the origin. *)
Theorem empty_box_gets_default_placement (box : Box3) :
  isEmpty box = true ->
  degenerate box = true /\
  pl_scale (autoScaleAndCenter box) = defaultScale /\
  JSNum.same (vx (pl_position (autoScaleAndCenter box))) (Fin 0) /\
  JSNum.same (vy (pl_position (autoScaleAndCenter box))) (Fin 0) /\
  JSNum.same (vz (pl_position (autoScaleAndCenter box))) (Fin 0).
Proof.
  intros He.
  assert (Hd : degenerate box = true).
  { unfold degenerate, maxDim, getSize. now rewrite He. }
  unfold autoScaleAndCenter, getCenter, getSize. rewrite Hd, He.
  repeat split; reflexivity.
Qed.

Lemma empty_box_gets_default_placement_witness :
  pl_scale (autoScaleAndCenter emptyBox) = defaultScale.
Proof.
  refine (proj1 (proj2 (empty_box_gets_default_placement emptyBox _))).
  reflexivity.
Defined.



End MoreNormalisation.

